(** * Timetable generator: placement loop and conflict detector

    A shallow embedding of [TimetableGenerator] from [src/app.py]:
    the resource grids, [can_place], [place_entry],
    [suggest_alternatives], the per-subject placement loop of
    [generate], [is_teacher_available] and [detect_conflicts]; and of
    the routes over the two session stores that need no rendering:
    [update_timetable], [get_conflicts] and the memory routes.

    Python dictionaries that are only looked up and updated (the three
    schedules, the load counters, a teacher's availability) are finite
    maps; the dictionaries whose iteration order reaches the output
    (the groupings of [detect_conflicts]) are association lists in
    insertion order.  A subscript on a missing key raises [KeyError]:
    computations that subscript run in an error monad over the
    generator's mutable state. *)

From Stdlib Require Import ZArith Ascii String.
From stdpp Require Import list sorting gmap strings pretty.

Local Open Scope Z_scope.
Set Default Proof Using "Type*".
(* [naive_solver] clears hypotheses it has already consumed. *)
Set Warnings "-clear-no-such-hyp".

(** ** Data model *)

(** A teacher dictionary: ['name'], [get('subjects', [])],
    [get('availability', {})]. *)
Record Teacher := {
  t_name : string;
  t_subjects : list string;
  t_availability : gmap string (list string)
}.

(** A subject dictionary: ['name'], the optional ['semester'] and the
    optional ['sessions_per_week']. *)
Record Subject := {
  s_name : string;
  s_semester : option string;
  s_sessions_per_week : option Z
}.

(** An entry of [self.timetable].  Entries built by [place_entry] always
    carry a semester; entries handed to [detect_conflicts] from outside
    may omit it, hence the option.  The cosmetic ['subject_color'] field
    is left out. *)
Record Entry := {
  e_day : string;
  e_time_slot : string;
  e_subject : string;
  e_teacher : string;
  e_classroom : string;
  e_semester : option string
}.

(** The dictionaries appended to [self.conflicts].  [CohortClash] and
    [Unplaced] both carry ['type': 'student'] in the source; the second
    one has no day and slot and carries ['missing_sessions'] and
    ['suggestions']. *)
Inductive Conflict :=
  | TeacherClash (teacher day time_slot : string) (subjects : list string)
  | ClassroomClash (classroom day time_slot : string) (subjects : list string)
  | CohortClash (semester day time_slot : string) (subjects : list string)
  | Unplaced (semester : string) (subjects : list string)
             (missing_sessions : Z) (suggestions : list string).

(** The constructor arguments of [TimetableGenerator] that [generate]
    reads ([semesters] is stored but never used). *)
Record Request := {
  teachers : list Teacher;
  subjects : list Subject;
  classrooms : list string;
  time_slots : list string;
  days : list string
}.

Global Instance Entry_eq_dec : EqDecision Entry.
Proof. solve_decision. Defined.
Global Instance Conflict_eq_dec : EqDecision Conflict.
Proof. solve_decision. Defined.

Definition General : string := "General".

(** [subject.get('semester', 'General')] *)
Definition semester_of (s : Subject) : string := default General (s_semester s).

(** [e.get('semester', 'General')] *)
Definition cohort_of (e : Entry) : string := default General (e_semester e).

(** [subject.get('sessions_per_week', 2)] *)
Definition sessions_of (s : Subject) : Z := default 2 (s_sessions_per_week s).

(** ** Conflict detector *)

Section Grouping.
Context {K V : Type} `{EqDecision K}.

(** [m.setdefault(k, []).append(v)] on an insertion-ordered dictionary:
    an existing key keeps its position and its list grows at the end, a
    new key goes last. *)
Fixpoint setdefault_append (k : K) (v : V) (m : list (K * list V))
  : list (K * list V) :=
  match m with
  | [] => [(k, [v])]
  | (k', vs) :: m' =>
      if decide (k = k') then (k', vs ++ [v]) :: m'
      else (k', vs) :: setdefault_append k v m'
  end.

(** [for v in l: m.setdefault(key(v), []).append(v)] from an empty [m] *)
Definition group_by (key : V → K) (l : list V) : list (K * list V) :=
  foldl (λ m v, setdefault_append (key v) v m) [] l.
End Grouping.

(** [for k, arr in m.items(): if len(arr) > 1: conflicts.append({...,
    'subjects': [x['subject'] for x in arr]})] *)
Definition clashes_of (mk : string → list string → Conflict)
    (m : list (string * list Entry)) : list Conflict :=
  flat_map (λ '(k, arr),
    if decide (1 < length arr)%nat then [mk k (e_subject <$> arr)] else []) m.

(** The body of the loop over [indexed.items()]: the three maps of one
    (day, slot) group and the records they give, teachers first, then
    classrooms, then cohorts. *)
Definition slot_clashes (day slot : string) (entries : list Entry)
  : list Conflict :=
  clashes_of (λ t, TeacherClash t day slot) (group_by e_teacher entries)
  ++ clashes_of (λ c, ClassroomClash c day slot) (group_by e_classroom entries)
  ++ clashes_of (λ c, CohortClash c day slot) (group_by cohort_of entries).

(** The local list [conflicts] that [detect_conflicts] builds from
    [self.timetable]. *)
Definition detect (timetable : list Entry) : list Conflict :=
  flat_map (λ '((day, slot), entries), slot_clashes day slot entries)
           (group_by (λ e, (e_day e, e_time_slot e)) timetable).

(** ** Random source

    [random.shuffle] is CPython's Fisher-Yates loop
    [for i in reversed(range(1, len(x))): j = randbelow(i + 1);
    x[i], x[j] = x[j], x[i]].  The generator's entropy is a tape of
    naturals read from left to right, one cell per draw; every sequence
    of draws is the reading of some tape. *)

Record Rng := { tape : nat → nat; pos : nat }.

Definition randbelow (n : nat) (g : Rng) : nat * Rng :=
  (Nat.modulo (tape g (pos g)) n, {| tape := tape g; pos := S (pos g) |}).

(** [x[i], x[j] = x[j], x[i]] *)
Definition swap {A} (x : list A) (i j : nat) : list A :=
  match x !! i, x !! j with
  | Some a, Some b => <[j := a]> (<[i := b]> x)
  | _, _ => x
  end.

Fixpoint shuffle_from {A} (i : nat) (x : list A) (g : Rng) : list A * Rng :=
  match i with
  | O => (x, g)
  | S i' => let '(j, g') := randbelow (S i) g in shuffle_from i' (swap x i j) g'
  end.

Definition shuffle {A} (x : list A) (g : Rng) : list A * Rng :=
  shuffle_from (length x - 1)%nat x g.

(** ** Generator state *)

Abbreviation Grid := (gmap string (gmap string (gmap string bool))).

(** [self.timetable], [self.conflicts] and the locals of [generate] that
    its closures share, with the state of the random module. *)
Record State := {
  timetable : list Entry;
  conflicts : list Conflict;
  teacher_schedule : Grid;
  classroom_schedule : Grid;
  cohort_schedule : Grid;
  cohort_load : gmap string (gmap string Z);
  rng : Rng
}.

(** [grid[k][day][slot]]; [None] is the [KeyError]. *)
Definition grid_get (g : Grid) (k day slot : string) : option bool :=
  row ← g !! k; col ← row !! day; col !! slot.

(** [grid[k][day][slot] = True]: the two outer subscripts must exist, the
    innermost assignment creates or overwrites the cell. *)
Definition grid_mark (g : Grid) (k day slot : string) : option Grid :=
  row ← g !! k; col ← row !! day;
  Some (<[k := <[day := <[slot := true]> col]> row]> g).

(** [{slot: False for slot in slots}] and the two comprehensions around
    it; a repeated key is overwritten by its later occurrence. *)
Definition fresh_slots (slots : list string) : gmap string bool :=
  foldl (λ m s, <[s := false]> m) ∅ slots.

Definition fresh_days (ds slots : list string) : gmap string (gmap string bool) :=
  foldl (λ m d, <[d := fresh_slots slots]> m) ∅ ds.

Definition fresh_grid (keys ds slots : list string) : Grid :=
  foldl (λ m k, <[k := fresh_days ds slots]> m) ∅ keys.

(** [cohort_load.get(cohort, {}).get(day, 0)] *)
Definition load_get (load : gmap string (gmap string Z)) (cohort day : string) : Z :=
  default 0 (default ∅ (load !! cohort) !! day).

(** [cohort_load.setdefault(semester, {}).setdefault(day, 0);
    cohort_load[semester][day] += 1] *)
Definition load_incr (load : gmap string (gmap string Z)) (semester day : string)
  : gmap string (gmap string Z) :=
  let row := default ∅ (load !! semester) in
  <[semester := <[day := default 0 (row !! day) + 1]> row]> load.

(** [_rank_slots]: [day_load * 10 - contiguous_bonus] with the bonus
    fixed at 0; the slot does not enter the score. *)
Definition _rank_slots (load : gmap string (gmap string Z))
    (day slot cohort : string) : Z :=
  let day_load := load_get load cohort day in
  let contiguous_bonus := 0 in
  day_load * 10 - contiguous_bonus.

(** [is_teacher_available] *)
Definition is_teacher_available (teacher : Teacher) (day time_slot : string) : bool :=
  match t_availability teacher !! day with
  | None => true
  | Some allowed => bool_decide (time_slot ∈ allowed)
  end.

(** [f"{day} @ {slot}"] *)
Definition suggestion (day slot : string) : string :=
  (day ++ " @ " ++ slot)%string.

(** ** A state and error monad for the closures of [generate] *)

Definition M (A : Type) : Type := State → option (A * State).

Global Instance M_ret : MRet M := λ A a st, Some (a, st).

Global Instance M_bind : MBind M := λ A B k m st,
  match m st with
  | Some (a, st') => k a st'
  | None => None
  end.

(** Reading a cell of one of the three schedules. *)
Definition teacher_busy (name day slot : string) : M bool :=
  λ st, b ← grid_get (teacher_schedule st) name day slot; Some (b, st).

Definition classroom_busy (classroom day slot : string) : M bool :=
  λ st, b ← grid_get (classroom_schedule st) classroom day slot; Some (b, st).

Definition cohort_busy (semester day slot : string) : M bool :=
  λ st, b ← grid_get (cohort_schedule st) semester day slot; Some (b, st).

(** [random.shuffle(l)] on the state's random source *)
Definition shuffleM {A} (l : list A) : M (list A) :=
  λ st, let '(l', g') := shuffle l (rng st) in
        Some (l', {| timetable := timetable st; conflicts := conflicts st;
                     teacher_schedule := teacher_schedule st;
                     classroom_schedule := classroom_schedule st;
                     cohort_schedule := cohort_schedule st;
                     cohort_load := cohort_load st; rng := g' |}).

(** A list comprehension [[x for x in l if p(x)]] whose condition reads
    the state and may raise. *)
Fixpoint filterM {A} (p : A → M bool) (l : list A) : M (list A) :=
  match l with
  | [] => mret []
  | x :: l' => b ← p x; r ← filterM p l'; mret (if b : bool then x :: r else r)
  end.

(** [for x in l: body(x)], keeping what each round returns. *)
Fixpoint forM {A B} (body : A → M B) (l : list A) : M (list B) :=
  match l with
  | [] => mret []
  | x :: l' => b ← body x; r ← forM body l'; mret (b :: r)
  end.

(** [self.conflicts.append(c)] *)
Definition add_conflict (c : Conflict) : M unit :=
  λ st, Some ((), {| timetable := timetable st; conflicts := conflicts st ++ [c];
                     teacher_schedule := teacher_schedule st;
                     classroom_schedule := classroom_schedule st;
                     cohort_schedule := cohort_schedule st;
                     cohort_load := cohort_load st; rng := rng st |}).

(** [detect_conflicts]: [self.conflicts.extend(conflicts)] *)
Definition detect_conflicts : M unit :=
  λ st, Some ((), {| timetable := timetable st;
                     conflicts := conflicts st ++ detect (timetable st);
                     teacher_schedule := teacher_schedule st;
                     classroom_schedule := classroom_schedule st;
                     cohort_schedule := cohort_schedule st;
                     cohort_load := cohort_load st; rng := rng st |}).

(** Stable sort of the candidate triples by their score, as
    [candidates.sort(key=lambda x: x[0])]. *)
Fixpoint insert_by_score (c : Z * string * string) (l : list (Z * string * string))
  : list (Z * string * string) :=
  match l with
  | [] => [c]
  | c' :: l' =>
      if decide (c.1.1 ≤ c'.1.1) then c :: l else c' :: insert_by_score c l'
  end.

Definition sort_by_score (l : list (Z * string * string))
  : list (Z * string * string) :=
  foldr insert_by_score [] l.

(** ** The generator *)

Section Generator.
(** [str.lower] is Python's Unicode lower-casing; nothing below depends
    on which function it is. *)
Variable lower : string → string.
(** [self]: the lists the generator was built with. *)
Variable req : Request.

(** [subject['name'].lower() in [s.lower() for s in t.get('subjects', [])]] *)
Definition teaches (subject : Subject) (t : Teacher) : bool :=
  bool_decide (lower (s_name subject) ∈ lower <$> t_subjects t).

(** [can_place] *)
Definition can_place (subject : Subject) (teacher : Teacher)
    (classroom day slot : string) : M bool :=
  let semester := semester_of subject in
  t_busy ← teacher_busy (t_name teacher) day slot;
  if t_busy : bool then mret false else
  c_busy ← classroom_busy classroom day slot;
  if c_busy : bool then mret false else
  s_busy ← cohort_busy semester day slot;
  if s_busy : bool then mret false else
  if negb (is_teacher_available teacher day slot) then mret false else
  mret true.

(** [place_entry] *)
Definition place_entry (subject : Subject) (teacher : Teacher)
    (classroom day slot : string) : M unit :=
  λ st,
    let semester := semester_of subject in
    let entry := {| e_day := day; e_time_slot := slot;
                    e_subject := s_name subject;
                    e_teacher := t_name teacher;
                    e_classroom := classroom;
                    e_semester := Some semester |} in
    ts ← grid_mark (teacher_schedule st) (t_name teacher) day slot;
    cs ← grid_mark (classroom_schedule st) classroom day slot;
    co ← grid_mark (cohort_schedule st) semester day slot;
    Some ((), {| timetable := timetable st ++ [entry];
                 conflicts := conflicts st;
                 teacher_schedule := ts;
                 classroom_schedule := cs;
                 cohort_schedule := co;
                 cohort_load := load_incr (cohort_load st) semester day;
                 rng := rng st |}).

(** [[c for c in self.classrooms if not classroom_schedule[c][day][slot]]] *)
Definition free_classrooms (day slot : string) : M (list string) :=
  filterM (λ c, busy ← classroom_busy c day slot; mret (negb busy))
          (classrooms req).

(** The comprehension [available_teachers] of [suggest_alternatives];
    [and] evaluates the schedule only for a teacher of the subject. *)
Definition available_teachers (subject : Subject) (day slot : string)
  : M (list Teacher) :=
  filterM (λ t,
    if teaches subject t then
      busy ← teacher_busy (t_name t) day slot;
      mret (negb busy && is_teacher_available t day slot)
    else mret false) (teachers req).

(** The (day, slot) pairs in the order of [for day in self.days: for
    slot in self.time_slots]. *)
Definition day_slot_pairs : list (string * string) :=
  d ← days req; s ← time_slots req; [(d, s)].

(** The two nested loops of [suggest_alternatives] over the pairs still
    to visit, with the list built so far. *)
Fixpoint suggest_loop (subject : Subject) (max_suggestions : Z)
    (pairs : list (string * string)) (suggestions : list string)
  : M (list string) :=
  match pairs with
  | [] => mret suggestions
  | (day, slot) :: rest =>
      ts ← available_teachers subject day slot;
      if bool_decide (ts = []) then
        suggest_loop subject max_suggestions rest suggestions
      else
      cs ← free_classrooms day slot;
      if bool_decide (cs = []) then
        suggest_loop subject max_suggestions rest suggestions
      else
      busy ← cohort_busy (semester_of subject) day slot;
      if busy : bool then
        suggest_loop subject max_suggestions rest suggestions
      else
      let suggestions := suggestions ++ [suggestion day slot] in
      if bool_decide (max_suggestions ≤ Z.of_nat (length suggestions)) then
        mret suggestions
      else suggest_loop subject max_suggestions rest suggestions
  end.

(** [suggest_alternatives] *)
Definition suggest_alternatives (subject : Subject) (max_suggestions : Z)
  : M (list string) :=
  suggest_loop subject max_suggestions day_slot_pairs [].

(** [for classroom in free_classrooms: if can_place(...): place_entry(...);
    placed += 1; assigned_here = True; break]; the result is
    [assigned_here]. *)
Fixpoint try_classrooms (subject : Subject) (teacher : Teacher)
    (day slot : string) (cs : list string) : M bool :=
  match cs with
  | [] => mret false
  | classroom :: cs' =>
      ok ← can_place subject teacher classroom day slot;
      if ok : bool then
        place_entry subject teacher classroom day slot;; mret true
      else try_classrooms subject teacher day slot cs'
  end.

(** [for teacher in available_teachers: ...] of the placement loop *)
Fixpoint try_teachers (subject : Subject) (day slot : string)
    (ts : list Teacher) : M bool :=
  match ts with
  | [] => mret false
  | teacher :: ts' =>
      if negb (is_teacher_available teacher day slot) then
        try_teachers subject day slot ts'
      else
        free ← free_classrooms day slot;
        free ← shuffleM free;
        assigned_here ← try_classrooms subject teacher day slot free;
        if assigned_here : bool then mret true
        else try_teachers subject day slot ts'
  end.

(** [for _, day, slot in candidates: ...] *)
Fixpoint try_candidates (subject : Subject)
    (candidates : list (Z * string * string)) : M bool :=
  match candidates with
  | [] => mret false
  | (_, day, slot) :: rest =>
      ts ← shuffleM (filter (λ t, teaches subject t) (teachers req));
      assigned_here ← try_teachers subject day slot ts;
      if assigned_here : bool then mret true
      else try_candidates subject rest
  end.

(** The candidate triples of one attempt, before sorting. *)
Definition candidates (subject : Subject) : M (list (Z * string * string)) :=
  λ st, Some ((λ '(day, slot),
                 (_rank_slots (cohort_load st) day slot (semester_of subject),
                  day, slot)) <$> day_slot_pairs, st).

(** One round of the [while] body; the result is [assigned_here]. *)
Definition attempt (subject : Subject) : M bool :=
  cands ← candidates subject;
  try_candidates subject (sort_by_score cands).

(** [while placed < sessions_per_week and attempts_guard <
    sessions_per_week * 300].  The recursion is on [fuel], which
    [schedule_subject] sets to the attempt budget; the result is the
    final [(placed, attempts_guard)]. *)
Fixpoint place_loop (subject : Subject) (fuel : nat)
    (placed attempts_guard : Z) : M (Z * Z) :=
  let sessions_per_week := sessions_of subject in
  match fuel with
  | O => mret (placed, attempts_guard)
  | S fuel' =>
      if bool_decide (placed < sessions_per_week
                      ∧ attempts_guard < sessions_per_week * 300) then
        let attempts_guard := attempts_guard + 1 in
        assigned_here ← attempt subject;
        if assigned_here : bool then
          place_loop subject fuel' (placed + 1) attempts_guard
        else mret (placed, attempts_guard)
      else mret (placed, attempts_guard)
  end.

(** The body of [for subject in self.subjects]; it returns the final
    values of the locals [placed] and [attempts_guard]. *)
Definition schedule_subject (subject : Subject) : M (Z * Z) :=
  let sessions_per_week := sessions_of subject in
  '(placed, attempts_guard) ←
    place_loop subject (Z.to_nat (sessions_per_week * 300)) 0 0;
  (if bool_decide (placed < sessions_per_week) then
     let missing := sessions_per_week - placed in
     suggestions ← suggest_alternatives subject 5;
     add_conflict (Unplaced (semester_of subject) [s_name subject]
                            missing suggestions)
   else mret ());;
  mret (placed, attempts_guard).

(** The keys of [cohort_schedule]:
    [set([s.get('semester','General') for s in self.subjects]) or {'General'}] *)
Definition cohort_keys : list string :=
  match subjects req with
  | [] => [General]
  | _ => semester_of <$> subjects req
  end.

(** The state at the top of [generate], after the three schedule
    comprehensions. *)
Definition init_state (g : Rng) : State :=
  {| timetable := []; conflicts := [];
     teacher_schedule :=
       fresh_grid (t_name <$> teachers req) (days req) (time_slots req);
     classroom_schedule :=
       fresh_grid (classrooms req) (days req) (time_slots req);
     cohort_schedule := fresh_grid cohort_keys (days req) (time_slots req);
     cohort_load := ∅; rng := g |}.

(** [generate], with the per-subject [(placed, attempts_guard)] kept *)
Definition generate_trace (g : Rng) : option (list (Z * Z) * State) :=
  (trace ← forM schedule_subject (subjects req);
   detect_conflicts;;
   mret trace) (init_state g).

(** [generate]: the returned ['timetable'] and ['conflicts'] *)
Definition generate (g : Rng) : option (list Entry * list Conflict) :=
  '(_, st) ← generate_trace g; Some (timetable st, conflicts st).
End Generator.

(** The re-detection of [update_timetable]: a generator built on empty
    lists, its timetable replaced, then [detect_conflicts]; the answer is
    [generator.conflicts]. *)
Definition redetect (tt : list Entry) (g : Rng) : option (list Conflict) :=
  '(_, st) ← detect_conflicts
    {| timetable := tt; conflicts := [];
       teacher_schedule := ∅; classroom_schedule := ∅; cohort_schedule := ∅;
       cohort_load := ∅; rng := g |};
  Some (conflicts st).

(** ** The detector's contract, in the words of the specification *)

(** The distinct elements of a list, in the order of their first
    occurrence: the key order of a dictionary filled from the list. *)
Fixpoint first_occurrences {K} `{EqDecision K} (l : list K) : list K :=
  match l with
  | [] => []
  | k :: l' => k :: filter (λ k', k' ≠ k) (first_occurrences l')
  end.

(** The three resources an entry occupies. *)
Inductive Kind := KTeacher | KClassroom | KCohort.

Global Instance Kind_eq_dec : EqDecision Kind.
Proof. solve_decision. Defined.

Definition entity (k : Kind) (e : Entry) : string :=
  match k with
  | KTeacher => e_teacher e
  | KClassroom => e_classroom e
  | KCohort => cohort_of e
  end.

Definition clash (k : Kind) (x day slot : string) (subs : list string) : Conflict :=
  match k with
  | KTeacher => TeacherClash x day slot subs
  | KClassroom => ClassroomClash x day slot subs
  | KCohort => CohortClash x day slot subs
  end.

(** Kind, entity, day and slot of a resource-clash record. *)
Definition clash_key (c : Conflict) : option (Kind * string * string * string) :=
  match c with
  | TeacherClash x d s _ => Some (KTeacher, x, d, s)
  | ClassroomClash x d s _ => Some (KClassroom, x, d, s)
  | CohortClash x d s _ => Some (KCohort, x, d, s)
  | Unplaced _ _ _ _ => None
  end.

(** The ['subjects'] list of a record. *)
Definition conflict_subjects (c : Conflict) : list string :=
  match c with
  | TeacherClash _ _ _ subs | ClassroomClash _ _ _ subs
  | CohortClash _ _ _ subs | Unplaced _ subs _ _ => subs
  end.

(** The entries of a timetable that occupy entity [x] of kind [k] at
    ([day], [slot]), in timetable order. *)
Definition subgroup (k : Kind) (x day slot : string) (tt : list Entry) : list Entry :=
  filter (λ e, e_day e = day ∧ e_time_slot e = slot ∧ entity k e = x) tt.

(** "Within each group, group again by teacher, by classroom, and by
    cohort independently.  Any sub-group with more than one entry
    produces one conflict record of the corresponding kind, listing all
    subject names in that sub-group." *)
Definition subgroup_clashes (k : Kind) (day slot : string) (entries : list Entry)
  : list Conflict :=
  flat_map (λ x,
    let arr := filter (λ e, entity k e = x) entries in
    if decide (1 < length arr)%nat then [clash k x day slot (e_subject <$> arr)]
    else []) (first_occurrences (entity k <$> entries)).

(** "Group entries by (day, slot)." *)
Definition detect_spec (tt : list Entry) : list Conflict :=
  flat_map (λ '(day, slot),
    let entries := filter (λ e, (e_day e, e_time_slot e) = (day, slot)) tt in
    subgroup_clashes KTeacher day slot entries
    ++ subgroup_clashes KClassroom day slot entries
    ++ subgroup_clashes KCohort day slot entries)
    (first_occurrences ((λ e, (e_day e, e_time_slot e)) <$> tt)).

(** Two records report the same clash when they agree on kind, entity,
    day and slot and list the same subjects up to order. *)
Definition same_clash (c1 c2 : Conflict) : Prop :=
  clash_key c1 = clash_key c2
  ∧ conflict_subjects c1 ≡ₚ conflict_subjects c2.

(** ** State invariants of a generation run *)

(** "For every (day, slot), at most one entry per teacher, at most one
    per classroom, at most one per cohort." *)
Definition no_double_booking (tt : list Entry) : Prop :=
  ∀ k x day slot, (length (subgroup k x day slot tt) ≤ 1)%nat.

(** Every subscript [grid[k][day][slot]] with [k], [day] and [slot] taken
    from the given lists finds its cell. *)
Definition grid_covers (g : Grid) (keys ds slots : list string) : Prop :=
  ∀ k d s, k ∈ keys → d ∈ ds → s ∈ slots → is_Some (grid_get g k d s).

(** The schedule that records the occupation of a kind of resource. *)
Definition schedule_of (k : Kind) (st : State) : Grid :=
  match k with
  | KTeacher => teacher_schedule st
  | KClassroom => classroom_schedule st
  | KCohort => cohort_schedule st
  end.

(** The keys [generate] gives each schedule. *)
Definition resource_keys (req : Request) (k : Kind) : list string :=
  match k with
  | KTeacher => t_name <$> teachers req
  | KClassroom => classrooms req
  | KCohort => cohort_keys req
  end.

(** The three schedules have a cell for every teacher, classroom and
    cohort of the request at every day and slot of the request. *)
Definition wf_state (req : Request) (st : State) : Prop :=
  ∀ k, grid_covers (schedule_of k st) (resource_keys req k)
                   (days req) (time_slots req).

(** Every entry of the timetable is marked in the three schedules. *)
Definition booked (st : State) : Prop :=
  ∀ k e, e ∈ timetable st →
    grid_get (schedule_of k st) (entity k e) (e_day e) (e_time_slot e) = Some true.

(** What every step of the placement loop maintains. *)
Definition consistent (req : Request) (st : State) : Prop :=
  wf_state req st ∧ booked st ∧ no_double_booking (timetable st).

(** Two states that differ at most in the random source. *)
Definition same_schedule (st st' : State) : Prop :=
  timetable st' = timetable st
  ∧ conflicts st' = conflicts st
  ∧ teacher_schedule st' = teacher_schedule st
  ∧ classroom_schedule st' = classroom_schedule st
  ∧ cohort_schedule st' = cohort_schedule st
  ∧ cohort_load st' = cohort_load st.

(** An entry that [place_entry] builds for a subject. *)
Definition entry_of (subject : Subject) (e : Entry) : Prop :=
  e_subject e = s_name subject ∧ e_semester e = Some (semester_of subject).

(** ** What one round of [for subject in self.subjects] leaves behind *)

Record Outcome := {
  o_placed : Z;                    (* final [placed] *)
  o_attempts : Z;                  (* final [attempts_guard] *)
  o_entries : list Entry;          (* entries appended to [self.timetable] *)
  o_conflicts : list Conflict      (* records appended to [self.conflicts] *)
}.

Section Contracts.
Variable lower : string → string.
Variable req : Request.

(** "A (day, slot) qualifies if at least one teacher teaches the
    subject, is unoccupied there, and satisfies its availability map,
    AND at least one classroom is unoccupied there, AND the subject's
    cohort is unoccupied there." *)
Definition qualifies (st : State) (subject : Subject) (p : string * string) : Prop :=
  Exists (λ t, teaches lower subject t
               ∧ grid_get (teacher_schedule st) (t_name t) p.1 p.2 = Some false
               ∧ is_teacher_available t p.1 p.2) (teachers req)
  ∧ Exists (λ c, grid_get (classroom_schedule st) c p.1 p.2 = Some false)
           (classrooms req)
  ∧ grid_get (cohort_schedule st) (semester_of subject) p.1 p.2 = Some false.

Global Instance qualifies_dec st subject p : Decision (qualifies st subject p).
Proof. unfold qualifies. apply _. Defined.

(** The subject cannot be placed whatever the schedules hold: no
    (day, slot) pair exists, or no teacher teaches it. *)
Definition unplaceable (subject : Subject) : Prop :=
  days req = [] ∨ time_slots req = []
  ∨ filter (λ t, teaches lower subject t) (teachers req) = [].

(** The outcome of the round for [subject]: as many entries as
    [placed] counts, all for that subject; the counters within their
    bounds; and one unplaced-sessions record exactly when [placed]
    stays below the requirement. *)
Definition subject_outcome (subject : Subject) (o : Outcome) : Prop :=
  let n := sessions_of subject in
  Z.of_nat (length (o_entries o)) = o_placed o
  ∧ Forall (entry_of subject) (o_entries o)
  ∧ o_placed o ≤ Z.max 0 n
  ∧ 0 ≤ o_attempts o ≤ Z.max 0 (n * 300)
  ∧ o_attempts o ≤ o_placed o + 1
  ∧ (unplaceable subject → o_placed o = 0)
  ∧ if decide (o_placed o < n) then
      ∃ suggestions,
        o_conflicts o = [Unplaced (semester_of subject) [s_name subject]
                                  (n - o_placed o) suggestions]
        ∧ (length suggestions ≤ 5)%nat
        ∧ (unplaceable subject → suggestions = [])
    else o_conflicts o = [].
End Contracts.

(** What a search for one placement leaves behind: with [assigned_here]
    set, one more entry for the subject; otherwise the schedules as they
    were.  The conflict list is not touched and the invariant holds. *)
Definition step_result (req : Request) (subject : Subject)
    (st : State) (assigned_here : bool) (st' : State) : Prop :=
  consistent req st'
  ∧ conflicts st' = conflicts st
  ∧ if assigned_here
    then ∃ e, timetable st' = timetable st ++ [e] ∧ entry_of subject e
    else same_schedule st st'.

(** The kind of a resource-clash record. *)
Definition clash_kind (c : Conflict) : option Kind :=
  (λ key, key.1.1.1) <$> clash_key c.

(** ** Sample inputs *)

(** [str.lower] on ASCII text, to run the model on the samples. *)
Definition ascii_lower_char (c : ascii) : ascii :=
  let n := nat_of_ascii c in
  if (65 <=? n)%nat && (n <=? 90)%nat then ascii_of_nat (n + 32) else c.

Fixpoint ascii_lower (s : string) : string :=
  match s with
  | EmptyString => EmptyString
  | String c s' => String (ascii_lower_char c) (ascii_lower s')
  end.

Definition sample_rng : Rng := {| tape := λ n, n; pos := 0 |}.

Definition ann : Teacher :=
  {| t_name := "Ann"; t_subjects := ["Math"]; t_availability := ∅ |}.

Definition math : Subject :=
  {| s_name := "math"; s_semester := Some "A"; s_sessions_per_week := Some 3 |}.

(** One teacher, one classroom, one slot on each of two days, and a
    subject that asks for three sessions. *)
Definition small_request : Request :=
  {| teachers := [ann]; subjects := [math]; classrooms := ["R1"];
     time_slots := ["9:00"]; days := ["Mon"; "Tue"] |}.

(** A subject that no teacher teaches and that asks for no session. *)
Definition art : Subject :=
  {| s_name := "Art"; s_semester := None; s_sessions_per_week := Some 0 |}.

Definition art_request : Request :=
  {| teachers := [ann]; subjects := [art]; classrooms := ["R1"];
     time_slots := ["9:00"]; days := ["Mon"] |}.

(** Two entries with the same teacher, day and slot in two classrooms. *)
Definition clash_math : Entry :=
  {| e_day := "Mon"; e_time_slot := "9:00"; e_subject := "Math";
     e_teacher := "Ann"; e_classroom := "R1"; e_semester := Some "A" |}.

Definition clash_physics : Entry :=
  {| e_day := "Mon"; e_time_slot := "9:00"; e_subject := "Physics";
     e_teacher := "Ann"; e_classroom := "R2"; e_semester := Some "B" |}.

(** A subject that asks for two sessions and that no teacher teaches. *)
Definition chemistry : Subject :=
  {| s_name := "Chemistry"; s_semester := None; s_sessions_per_week := Some 2 |}.

Definition orphan_request : Request :=
  {| teachers := [ann]; subjects := [chemistry]; classrooms := ["R1"];
     time_slots := ["9:00"]; days := ["Mon"] |}.

(** The first scenario of the specification: one teacher of "Math"
    available everywhere, one classroom, five days of two slots, and
    "Math" of cohort "A" with three sessions a week. *)
Definition week_request : Request :=
  {| teachers := [ann];
     subjects := [{| s_name := "Math"; s_semester := Some "A";
                     s_sessions_per_week := Some 3 |}];
     classrooms := ["R1"]; time_slots := ["9:00"; "10:00"];
     days := ["Mon"; "Tue"; "Wed"; "Thu"; "Fri"] |}.

(** The second scenario: two subjects of cohort "A" with two sessions
    each, and a single slot on a single day. *)
Definition crowded_request : Request :=
  {| teachers := [{| t_name := "Ann"; t_subjects := ["Math"; "Physics"];
                     t_availability := ∅ |};
                  {| t_name := "Bob"; t_subjects := ["Physics"];
                     t_availability := {["Mon" := ["9:00"]]} |}];
     subjects := [{| s_name := "Math"; s_semester := Some "A";
                     s_sessions_per_week := Some 2 |};
                  {| s_name := "Physics"; s_semester := Some "A";
                     s_sessions_per_week := Some 2 |}];
     classrooms := ["R1"; "R2"]; time_slots := ["9:00"]; days := ["Mon"] |}.

(** ** Further invariants of a generation run *)

(** The conditions of [can_place], read on the schedules. *)
Definition feasible (st : State) (subject : Subject) (teacher : Teacher)
    (classroom day slot : string) : Prop :=
  grid_get (teacher_schedule st) (t_name teacher) day slot = Some false
  ∧ grid_get (classroom_schedule st) classroom day slot = Some false
  ∧ grid_get (cohort_schedule st) (semester_of subject) day slot = Some false
  ∧ is_teacher_available teacher day slot.

(** A cell marked in a schedule belongs to an entry of the timetable. *)
Definition exact_grids (st : State) : Prop :=
  ∀ k x d s,
    grid_get (schedule_of k st) x d s = Some true →
    ∃ e, e ∈ timetable st ∧ entity k e = x ∧ e_day e = d ∧ e_time_slot e = s.

(** The load counters count the entries of a cohort on a day. *)
Definition load_ok (st : State) : Prop :=
  ∀ c d,
    load_get (cohort_load st) c d
    = Z.of_nat (length (filter (λ e, cohort_of e = c ∧ e_day e = d) (timetable st))).

(** No marked cell is ever cleared. *)
Definition grows (st st' : State) : Prop :=
  ∀ k x d s,
    grid_get (schedule_of k st) x d s = Some true →
    grid_get (schedule_of k st') x d s = Some true.

(** An unplaced-sessions record without suggestions. *)
Definition no_suggestion (c : Conflict) : Prop :=
  match c with
  | Unplaced _ _ _ suggestions => suggestions = []
  | _ => True
  end.

Section Audit.
Variable lower : string → string.
Variable req : Request.

(** An entry made of the request: a subject of the request, one of its
    teachers who teaches the subject and is available at the entry's
    day and slot, and a classroom, a day and a slot of the request. *)
Definition legit_entry (e : Entry) : Prop :=
  ∃ subject teacher,
    subject ∈ subjects req ∧ teacher ∈ teachers req
    ∧ e_subject e = s_name subject
    ∧ e_semester e = Some (semester_of subject)
    ∧ e_teacher e = t_name teacher
    ∧ teaches lower subject teacher
    ∧ is_teacher_available teacher (e_day e) (e_time_slot e)
    ∧ e_classroom e ∈ classrooms req
    ∧ e_day e ∈ days req
    ∧ e_time_slot e ∈ time_slots req.

Definition audited (st : State) : Prop :=
  Forall legit_entry (timetable st) ∧ exact_grids st ∧ load_ok st
  ∧ Forall no_suggestion (conflicts st).

(** An attempt that commits: after some shuffles, [can_place] accepts a
    teacher of the subject and a classroom at a (day, slot) of the
    request, and [place_entry] runs on them. *)
Definition committed (subject : Subject) (st st' : State) : Prop :=
  ∃ st0 d s t c,
    same_schedule st st0
    ∧ d ∈ days req ∧ s ∈ time_slots req
    ∧ t ∈ teachers req ∧ teaches lower subject t
    ∧ is_teacher_available t d s
    ∧ c ∈ classrooms req
    ∧ can_place subject t c d s st0 = Some (true, st0)
    ∧ place_entry subject t c d s st0 = Some ((), st').

(** Nothing of the request fits the subject: at every (day, slot), for
    every teacher of the subject who is available there and every
    classroom, the teacher, the classroom or the cohort is occupied. *)
Definition blocked (subject : Subject) (st : State) : Prop :=
  ∀ d s t c,
    d ∈ days req → s ∈ time_slots req →
    t ∈ teachers req → teaches lower subject t →
    is_teacher_available t d s → c ∈ classrooms req →
    grid_get (teacher_schedule st) (t_name t) d s = Some true
    ∨ grid_get (classroom_schedule st) c d s = Some true
    ∨ grid_get (cohort_schedule st) (semester_of subject) d s = Some true.
End Audit.

(** ** Subject colours *)

(** The hue [_subject_color] folds out of a name:
    [h = (h * 31 + ord(ch)) % 360] from [h = 0].  A string is its
    sequence of characters with [ord] below 256. *)
Definition subject_hue_from (h : Z) (name : string) : Z :=
  foldl (λ h ch, (h * 31 + Z.of_nat (nat_of_ascii ch)) `mod` 360) h
        (list_ascii_of_string name).

(** [_subject_color]: [f"hsl({h},65%,85%)"] *)
Definition _subject_color (name : string) : string :=
  ("hsl(" ++ pretty (subject_hue_from 0 name) ++ ",65%,85%)")%string.

(** ** The session stores and their routes *)

Section Routes.
(** The JSON values kept in the short-term memory, and [v is None]. *)
Variable Json : Type.
Variable is_none : Json → bool.
(** The ['metadata'] dictionary of a stored result; the routes below
    never look inside. *)
Variable Metadata : Type.

(** A value of [timetables]: ['timetable'], ['conflicts'] and
    ['metadata'].  The timetable is [None] when the request that last
    replaced it carried none. *)
Record Stored := {
  sr_timetable : option (list Entry);
  sr_conflicts : list Conflict;
  sr_metadata : Metadata
}.

(** The two module-level dictionaries. *)
Record Server := {
  timetables : gmap string Stored;
  session_memory : gmap string (gmap string Json)
}.

(** What a route answers. *)
Inductive Response :=
  | Memory_ok (memory : gmap string Json)      (* success, 'memory' *)
  | Cleared_ok                                 (* success *)
  | Conflicts_ok (cs : list Conflict)          (* success, 'conflicts' *)
  | Updated_ok (cs : list Conflict) (memory : option (gmap string Json))
  | Not_found                                  (* 'Session not found', 404 *)
  | Server_error (message : string).           (* str(e), 500 *)

(** [{k: v for k, v in data.items() if v is not None}] *)
Definition not_none (data : gmap string Json) : gmap string Json :=
  filter (λ kv, is_none kv.2 = false) data.

(** [m.update(data without None values); m['last_updated'] = now] *)
Definition remember (data : gmap string Json) (now : Json)
    (m : gmap string Json) : gmap string Json :=
  <["last_updated" := now]> (not_none data ∪ m).

(** [get_memory] *)
Definition get_memory (session_id : string) (srv : Server) : Response :=
  match session_memory srv !! session_id with
  | Some m => Memory_ok m
  | None => Not_found
  end.

(** [update_memory]; [data] is [request.json], [None] for a missing or
    empty body, and [now] is [datetime.now().isoformat()]. *)
Definition update_memory (session_id : string) (data : option (gmap string Json))
    (now : Json) (srv : Server) : Response * Server :=
  let data := default ∅ data in
  let m := remember data now (default ∅ (session_memory srv !! session_id)) in
  (Memory_ok m,
   {| timetables := timetables srv;
      session_memory := <[session_id := m]> (session_memory srv) |}).

(** [clear_memory] *)
Definition clear_memory (session_id : string) (srv : Server) : Response * Server :=
  match session_memory srv !! session_id with
  | Some _ =>
      (Cleared_ok,
       {| timetables := timetables srv;
          session_memory := delete session_id (session_memory srv) |})
  | None => (Not_found, srv)
  end.

(** [get_conflicts] *)
Definition get_conflicts (session_id : string) (srv : Server) : Response :=
  match timetables srv !! session_id with
  | Some stored => Conflicts_ok (sr_conflicts stored)
  | None => Not_found
  end.

(** The ['memory_updates'] field of an update request: missing (the
    default [{}] applies), a dictionary, or any other value. *)
Inductive MemoryUpdates :=
  | Updates_missing
  | Updates_dict (d : gmap string Json)
  | Updates_other.

(** The body of an update request: [data.get('session_id')],
    [data.get('timetable')] and ['memory_updates']. *)
Record UpdateRequest := {
  u_session_id : option string;
  u_timetable : option (list Entry);
  u_memory_updates : MemoryUpdates
}.

(** [update_timetable].  The stored timetable is replaced first; the
    loop of [detect_conflicts] over a timetable that is [None] raises,
    and the [except] clause answers with the message. *)
Definition update_timetable (data : UpdateRequest) (now : Json) (srv : Server)
  : Response * Server :=
  match u_session_id data ≫= (λ sid, (sid,.) <$> timetables srv !! sid) with
  | None => (Not_found, srv)
  | Some (sid, stored) =>
      let stored1 := {| sr_timetable := u_timetable data;
                        sr_conflicts := sr_conflicts stored;
                        sr_metadata := sr_metadata stored |} in
      match u_timetable data with
      | None =>
          (Server_error "'NoneType' object is not iterable",
           {| timetables := <[sid := stored1]> (timetables srv);
              session_memory := session_memory srv |})
      | Some entries =>
          let cs := detect entries in
          let stored2 := {| sr_timetable := Some entries; sr_conflicts := cs;
                            sr_metadata := sr_metadata stored |} in
          let updates :=
            match u_memory_updates data with
            | Updates_missing => Some ∅
            | Updates_dict d => Some d
            | Updates_other => None
            end in
          let memory' :=
            match session_memory srv !! sid, updates with
            | Some m, Some d => <[sid := remember d now m]> (session_memory srv)
            | _, _ => session_memory srv
            end in
          (Updated_ok cs (memory' !! sid),
           {| timetables := <[sid := stored2]> (timetables srv);
              session_memory := memory' |})
      end
  end.
End Routes.

Arguments sr_timetable {Metadata} _.
Arguments sr_conflicts {Metadata} _.
Arguments sr_metadata {Metadata} _.
Arguments timetables {Json Metadata} _.
Arguments session_memory {Json Metadata} _.
Arguments Memory_ok {Json} _.
Arguments Cleared_ok {Json}.
Arguments Conflicts_ok {Json} _.
Arguments Updated_ok {Json} _ _.
Arguments Not_found {Json}.
Arguments Server_error {Json} _.
Arguments Updates_missing {Json}.
Arguments Updates_dict {Json} _.
Arguments Updates_other {Json}.
Arguments u_session_id {Json} _.
Arguments u_timetable {Json} _.
Arguments u_memory_updates {Json} _.
Arguments not_none {Json} _ _.
Arguments remember {Json} _ _ _ _.
Arguments get_memory {Json Metadata} _ _.
Arguments update_memory {Json} _ {Metadata} _ _ _ _.
Arguments clear_memory {Json Metadata} _ _.
Arguments get_conflicts {Json Metadata} _ _.
Arguments update_timetable {Json} _ {Metadata} _ _ _.

(** A store with one session: a stored run of [small_request] and a
    memory with one remembered field.  JSON values are modelled here by
    [option string], [None] being [null]. *)
Definition sample_is_none (v : option string) : bool := bool_decide (v = None).

Definition sample_stored : Stored unit :=
  {| sr_timetable := Some [clash_math];
     sr_conflicts := [Unplaced "A" ["math"] 1 []];
     sr_metadata := () |}.

Definition sample_server : Server (option string) unit :=
  {| timetables := {["s1" := sample_stored]};
     session_memory := {["s1" := {["days" := Some "Mon"]}]} |}.

Definition sample_update (entries : option (list Entry)) : UpdateRequest (option string) :=
  {| u_session_id := Some "s1"; u_timetable := entries;
     u_memory_updates := Updates_missing |}.

(** A subject that no teacher teaches, followed by one that Ann
    teaches. *)
Definition mixed_request : Request :=
  {| teachers := [ann]; subjects := [chemistry; math]; classrooms := ["R1"];
     time_slots := ["9:00"]; days := ["Mon"; "Tue"] |}.

(** * Properties *)

(** ** Grouping *)

Lemma filter_none {A} (P : A → Prop) `{∀ x, Decision (P x)} (l : list A) :
  (∀ x, x ∈ l → ¬ P x) → filter P l = [].
Proof.
  induction l as [|a l IH]; intros Hl; [done|].
  rewrite filter_cons_False by (apply Hl; by left).
  apply IH. intros x Hx. apply Hl. by right.
Qed.

Section GroupingFacts.
Context {K V : Type} `{EqDecision K}.
Implicit Types (k : K) (v : V) (ks : list K) (l : list V).

Lemma first_occurrences_elem ks k : k ∈ first_occurrences ks ↔ k ∈ ks.
Proof.
  induction ks as [|a ks IH]; simpl; [done|].
  rewrite !elem_of_cons, list_elem_of_filter, IH.
  destruct (decide (k = a)); naive_solver.
Qed.

Lemma first_occurrences_NoDup ks : NoDup (first_occurrences ks).
Proof.
  induction ks as [|a ks IH]; simpl; [constructor|].
  constructor; [|by apply NoDup_filter].
  rewrite list_elem_of_filter. naive_solver.
Qed.

Lemma first_occurrences_snoc ks k :
  first_occurrences (ks ++ [k]) =
  if decide (k ∈ ks) then first_occurrences ks else first_occurrences ks ++ [k].
Proof.
  induction ks as [|a ks IH].
  - destruct (decide (k ∈ [])) as [Hin|_]; [by apply elem_of_nil in Hin|done].
  - change (first_occurrences ((a :: ks) ++ [k]))
      with (a :: filter (λ k', k' ≠ a) (first_occurrences (ks ++ [k]))).
    rewrite IH.
    destruct (decide (k ∈ ks)) as [Hin|Hin];
      destruct (decide (k ∈ a :: ks)) as [Hin'|Hin']; try done.
    + exfalso. apply Hin'. by right.
    + apply elem_of_cons in Hin' as [->|?]; [|done]. simpl.
      rewrite filter_app, filter_cons_False, filter_nil, app_nil_r; [done|].
      by intros [].
    + simpl. rewrite filter_app, filter_cons_True, filter_nil; [done|].
      intros ->. apply Hin'. by left.
Qed.

Lemma setdefault_append_old k v (f : K → list V) ks :
  k ∈ ks → NoDup ks →
  setdefault_append k v ((λ k', (k', f k')) <$> ks) =
  (λ k', (k', if decide (k' = k) then f k' ++ [v] else f k')) <$> ks.
Proof.
  induction ks as [|a ks IH]; intros Hin Hnd; [by apply elem_of_nil in Hin|].
  apply NoDup_cons in Hnd as [Ha Hnd]. simpl.
  destruct (decide (k = a)) as [->|Hne].
  - rewrite decide_True by done. f_equal.
    apply list_fmap_ext. intros i k' Hk'.
    rewrite decide_False; [done|].
    intros ->. apply Ha. by eapply list_elem_of_lookup_2.
  - rewrite decide_False by done. f_equal.
    apply IH; [set_solver | done].
Qed.

Lemma setdefault_append_new k v (g : K → K * list V) ks :
  (∀ k', (g k').1 = k') → k ∉ ks →
  setdefault_append k v (g <$> ks) = (g <$> ks) ++ [(k, [v])].
Proof.
  intros Hg. induction ks as [|a ks IH]; intros Hin; simpl; [done|].
  specialize (Hg a). destruct (g a) as [a' vs]; simpl in *; subst a'.
  rewrite decide_False by set_solver. f_equal. apply IH. set_solver.
Qed.

Lemma group_by_snoc (key : V → K) l v :
  group_by key (l ++ [v]) = setdefault_append (key v) v (group_by key l).
Proof. unfold group_by. by rewrite foldl_app. Qed.

(** The dictionary built by the [setdefault]/[append] loop: its keys
    are the distinct key values in order of first occurrence, and each
    key holds the elements with that key, in list order. *)
Lemma group_by_spec (key : V → K) l :
  group_by key l =
  (λ k, (k, filter (λ v, key v = k) l)) <$> first_occurrences (key <$> l).
Proof.
  induction l as [|v l IH] using rev_ind; [done|].
  rewrite group_by_snoc, IH, fmap_app. simpl. rewrite first_occurrences_snoc.
  destruct (decide (key v ∈ key <$> l)) as [Hin|Hin].
  - rewrite setdefault_append_old;
      [|by apply first_occurrences_elem|apply first_occurrences_NoDup].
    apply list_fmap_ext. intros i k Hk. f_equal.
    rewrite filter_app. destruct (decide (k = key v)) as [->|Hne].
    + by rewrite filter_cons_True, filter_nil by done.
    + by rewrite filter_cons_False, filter_nil, app_nil_r by done.
  - rewrite (setdefault_append_new _ _ (λ k, (k, filter (λ v0, key v0 = k) l)));
      [|done|by rewrite first_occurrences_elem].
    rewrite fmap_app. simpl. f_equal.
    + apply list_fmap_ext. intros i k Hk. f_equal.
      rewrite filter_app, filter_cons_False, filter_nil, app_nil_r; [done|].
      intros Hk'. apply Hin. rewrite Hk'.
      apply first_occurrences_elem. by eapply list_elem_of_lookup_2.
    + f_equal. f_equal. rewrite filter_app, filter_cons_True, filter_nil by done.
      rewrite filter_none; [done|].
      intros x Hx Hk. apply Hin. rewrite <- Hk. by apply list_elem_of_fmap_2.
Qed.
End GroupingFacts.

(** ** The conflict detector *)

Lemma flat_map_fmap {A B C} (f : B → list C) (g : A → B) (l : list A) :
  flat_map f (g <$> l) = flat_map (λ x, f (g x)) l.
Proof. induction l as [|a l IH]; [done|]. csimpl. by f_equal. Qed.

Lemma filter_flat_map {A B} (P : B → Prop) `{∀ x, Decision (P x)}
    (f : A → list B) (l : list A) :
  filter P (flat_map f l) = flat_map (λ x, filter P (f x)) l.
Proof. induction l as [|a l IH]; simpl; [done|by rewrite filter_app, IH]. Qed.

Lemma flat_map_nil {A B} (f : A → list B) (l : list A) :
  (∀ x, x ∈ l → f x = []) → flat_map f l = [].
Proof.
  induction l as [|a l IH]; intros Hl; simpl; [done|].
  rewrite Hl by (by left). apply IH. intros x Hx. apply Hl. by right.
Qed.

(** Over distinct keys of which at most [k0] contributes, a
    concatenation is the contribution of [k0]. *)
Lemma flat_map_select {A B} `{EqDecision A} (f : A → list B) (ks : list A) k0 :
  (∀ k, k ∈ ks → k ≠ k0 → f k = []) →
  NoDup ks →
  flat_map f ks = if decide (k0 ∈ ks) then f k0 else [].
Proof.
  induction ks as [|a ks IH]; intros Hf Hnd.
  - by destruct (decide (k0 ∈ [])) as [Hin|_]; [apply elem_of_nil in Hin|].
  - apply NoDup_cons in Hnd as [Ha Hnd]. simpl.
    rewrite IH; [|intros k Hk; apply Hf; by right|done].
    destruct (decide (a = k0)) as [->|Hne].
    + destruct (decide (k0 ∈ ks)); [done|].
      destruct (decide (k0 ∈ k0 :: ks)) as [_|Hn]; [by rewrite app_nil_r|].
      exfalso. apply Hn. by left.
    + rewrite (Hf a) by (done || by left). simpl.
      destruct (decide (k0 ∈ ks)) as [Hin|Hin];
        destruct (decide (k0 ∈ a :: ks)) as [Hin'|Hin']; try done.
      * exfalso. apply Hin'. by right.
      * apply elem_of_cons in Hin' as [->|?]; done.
  Qed.

Lemma clashes_of_spec k day slot entries :
  clashes_of (λ x, clash k x day slot) (group_by (entity k) entries)
  = subgroup_clashes k day slot entries.
Proof.
  unfold clashes_of, subgroup_clashes. by rewrite group_by_spec, flat_map_fmap.
Qed.

Lemma slot_clashes_spec day slot entries :
  slot_clashes day slot entries =
  subgroup_clashes KTeacher day slot entries
  ++ subgroup_clashes KClassroom day slot entries
  ++ subgroup_clashes KCohort day slot entries.
Proof. unfold slot_clashes. by rewrite <- !clashes_of_spec. Qed.

(** The loops of [detect_conflicts] compute the contract of the
    specification. *)
Lemma detect_detect_spec tt : detect tt = detect_spec tt.
Proof.
  unfold detect, detect_spec. rewrite group_by_spec, flat_map_fmap.
  apply flat_map_ext. intros [day slot]. apply slot_clashes_spec.
Qed.

Lemma subgroup_clashes_filter k k' x d d' s s' entries :
  filter (λ c, clash_key c = Some (k, x, d, s)) (subgroup_clashes k' d' s' entries)
  = if decide (k' = k ∧ d' = d ∧ s' = s
               ∧ (1 < length (filter (λ e, entity k e = x) entries))%nat)
    then [clash k x d s (e_subject <$> filter (λ e, entity k e = x) entries)]
    else [].
Proof.
  unfold subgroup_clashes. rewrite filter_flat_map.
  rewrite (flat_map_select _ _ x); [| |apply first_occurrences_NoDup].
  - destruct (decide (x ∈ _)) as [Hin|Hin].
    + destruct (decide (1 < length (filter (λ e, entity k' e = x) entries))%nat)
        as [Hlen|Hlen].
      * destruct (decide (k' = k ∧ d' = d ∧ s' = s)) as [(-> & -> & ->)|Hne].
        -- rewrite decide_True by done.
           rewrite filter_cons_True; [done|by destruct k].
        -- rewrite decide_False by tauto.
           rewrite filter_cons_False; [done|].
           intros Hk. apply Hne. destruct k'; simpl in Hk; by simplify_eq.
      * rewrite filter_nil. rewrite decide_False; [done|].
        intros (-> & _ & _ & ?). done.
    + rewrite decide_False; [done|]. intros (-> & _ & _ & Hlen).
      apply Hin, first_occurrences_elem.
      destruct (filter (λ e, entity k e = x) entries) as [|e l] eqn:Hf;
        [simpl in Hlen; lia|].
      assert (e ∈ filter (λ e, entity k e = x) entries) as He
        by (rewrite Hf; by left).
      apply list_elem_of_filter in He as [<- He]. by apply list_elem_of_fmap_2.
  - intros x' _ Hne. case_decide; [|done].
    rewrite filter_cons_False; [done|].
    intros Hk. apply Hne. destruct k'; simpl in Hk; by simplify_eq.
Qed.

Lemma subgroup_filter k x d s tt :
  filter (λ e, entity k e = x)
         (filter (λ e, (e_day e, e_time_slot e) = (d, s)) tt)
  = subgroup k x d s tt.
Proof.
  unfold subgroup. rewrite list_filter_filter.
  apply list_filter_iff. intros e. split.
  - intros [? ?]. by simplify_eq.
  - intros (<- & <- & ?). done.
Qed.

(** For each kind, entity, day and slot the detector emits exactly one
    record when the sub-group has more than one entry, none otherwise;
    the record lists the subjects of the whole sub-group. *)
Lemma detect_filter_key tt k x d s :
  filter (λ c, clash_key c = Some (k, x, d, s)) (detect tt)
  = if decide (1 < length (subgroup k x d s tt))%nat
    then [clash k x d s (e_subject <$> subgroup k x d s tt)]
    else [].
Proof.
  rewrite detect_detect_spec. unfold detect_spec. rewrite filter_flat_map.
  assert (∀ ds : string * string,
    filter (λ c, clash_key c = Some (k, x, d, s))
      (let '(day, slot) := ds in
       let entries := filter (λ e, (e_day e, e_time_slot e) = (day, slot)) tt in
       subgroup_clashes KTeacher day slot entries
       ++ subgroup_clashes KClassroom day slot entries
       ++ subgroup_clashes KCohort day slot entries)
    = if decide (ds = (d, s) ∧ (1 < length (subgroup k x d s tt))%nat)
      then [clash k x d s (e_subject <$> subgroup k x d s tt)] else []) as Hds.
  { intros [d' s']. simpl. rewrite !filter_app, !subgroup_clashes_filter.
    destruct (decide ((d', s') = (d, s))) as [[= -> ->]|Hne].
    - rewrite subgroup_filter.
      destruct k; repeat case_decide; simpl; try done; naive_solver.
    - repeat case_decide; simpl; try done; naive_solver. }
  erewrite flat_map_ext by (intros; apply Hds).
  rewrite (flat_map_select _ _ (d, s)); [| |apply first_occurrences_NoDup].
  - destruct (decide (1 < length (subgroup k x d s tt))%nat) as [Hlen|Hlen].
    + rewrite (decide_True (P := _ ∧ _)) by done.
      rewrite decide_True; [done|].
      apply first_occurrences_elem.
      destruct (subgroup k x d s tt) as [|e l] eqn:Hf; [simpl in Hlen; lia|].
      assert (e ∈ subgroup k x d s tt) as He by (rewrite Hf; by left).
      apply list_elem_of_filter in He as [(<- & <- & _) He].
      by apply (list_elem_of_fmap_2 (λ e, (e_day e, e_time_slot e))).
    + repeat case_decide; try done; naive_solver.
  - intros ds _ Hne. destruct (decide _) as [[? _]|_]; done.
Qed.

Lemma subgroup_clashes_keyed k d s entries :
  Forall (λ c, is_Some (clash_key c)) (subgroup_clashes k d s entries).
Proof.
  unfold subgroup_clashes. apply Forall_forall. intros c Hc.
  apply list_elem_of_In, in_flat_map in Hc as (x & _ & Hc).
  case_decide; [|done]. apply list_elem_of_In, list_elem_of_singleton in Hc as ->.
  by destruct k.
Qed.

(** The detector emits resource-clash records only. *)
Lemma detect_keyed tt : Forall (λ c, is_Some (clash_key c)) (detect tt).
Proof.
  rewrite detect_detect_spec. unfold detect_spec.
  apply Forall_forall. intros c Hc.
  apply list_elem_of_In, in_flat_map in Hc as ([d s] & _ & Hc).
  apply list_elem_of_In in Hc. rewrite !elem_of_app in Hc.
  destruct Hc as [Hc|[Hc|Hc]];
    by eapply (proj1 (Forall_forall _ _) (subgroup_clashes_keyed _ _ _ _)).
Qed.

Lemma detect_nil_iff tt : detect tt = [] ↔ no_double_booking tt.
Proof.
  split.
  - intros Hnil k x d s.
    pose proof (detect_filter_key tt k x d s) as Hf. rewrite Hnil in Hf.
    case_decide; [done|lia].
  - intros Hnd. destruct (detect tt) as [|c L] eqn:Hd; [done|].
    pose proof (detect_keyed tt) as Hk. rewrite Hd in Hk.
    apply Forall_cons in Hk as [[[[[k x] d] s] Hc] _].
    pose proof (detect_filter_key tt k x d s) as Hf.
    rewrite Hd, filter_cons_True in Hf by done.
    specialize (Hnd k x d s). case_decide; [lia|done].
Qed.

(** ** The shuffle *)

Lemma swap_length {A} (x : list A) i j : length (swap x i j) = length x.
Proof.
  unfold swap. destruct (x !! i), (x !! j); try done.
  by rewrite !length_insert.
Qed.

Lemma swap_lookup {A} (x : list A) i j n :
  (i < length x)%nat → (j < length x)%nat →
  swap x i j !! n =
  x !! (if decide (n = i) then j else if decide (n = j) then i else n).
Proof.
  intros Hi Hj. unfold swap.
  destruct (lookup_lt_is_Some_2 _ _ Hi) as [a Ha].
  destruct (lookup_lt_is_Some_2 _ _ Hj) as [b Hb].
  rewrite Ha, Hb.
  destruct (decide (n = j)) as [->|Hnj].
  - rewrite list_lookup_insert_eq by (by rewrite length_insert).
    by destruct (decide (j = i)) as [->|?].
  - rewrite list_lookup_insert_ne by done.
    destruct (decide (n = i)) as [->|Hni].
    + by rewrite list_lookup_insert_eq.
    + by rewrite list_lookup_insert_ne.
Qed.

Lemma swap_Permutation {A} (x : list A) i j : swap x i j ≡ₚ x.
Proof.
  destruct (decide (i < length x)%nat) as [Hi|Hi];
    [destruct (decide (j < length x)%nat) as [Hj|Hj]|].
  - apply Permutation_inj. split; [apply swap_length|].
    exists (λ n, if decide (n = i) then j else if decide (n = j) then i else n).
    split; [|intros n; by apply swap_lookup].
    intros n m Hnm. repeat case_decide; subst; congruence.
  - unfold swap. rewrite (lookup_ge_None_2 x j) by lia. by destruct (x !! i).
  - unfold swap. by rewrite (lookup_ge_None_2 x i) by lia.
Qed.

Lemma shuffle_from_Permutation {A} i (x : list A) g :
  (shuffle_from i x g).1 ≡ₚ x.
Proof.
  revert x g. induction i as [|i IH]; intros x g; simpl; [done|].
  rewrite IH. apply swap_Permutation.
Qed.

(** [random.shuffle] rearranges its list. *)
Lemma shuffle_Permutation {A} (x : list A) g : (shuffle x g).1 ≡ₚ x.
Proof. apply shuffle_from_Permutation. Qed.

(** ** The schedules *)

Lemma foldl_insert_lookup {V} (v : V) (keys : list string) (m : gmap string V) k :
  foldl (λ m k, <[k := v]> m) m keys !! k
  = if decide (k ∈ keys) then Some v else m !! k.
Proof.
  revert m. induction keys as [|a keys IH]; intros m; simpl.
  - by destruct (decide (k ∈ [])) as [Hin%elem_of_nil|].
  - rewrite IH.
    destruct (decide (k ∈ keys)) as [Hin|Hin];
      destruct (decide (k ∈ a :: keys)) as [Hin'|Hin']; try done.
    + exfalso. apply Hin'. by right.
    + apply elem_of_cons in Hin' as [->|?]; [|done]. by rewrite lookup_insert_eq.
    + rewrite lookup_insert_ne; [done|]. intros ->. apply Hin'. by left.
Qed.

(** A fresh schedule has every cell of its keys, unoccupied. *)
Lemma fresh_grid_get keys ds slots k d s :
  k ∈ keys → d ∈ ds → s ∈ slots →
  grid_get (fresh_grid keys ds slots) k d s = Some false.
Proof.
  intros Hk Hd Hs. unfold grid_get, fresh_grid, fresh_days, fresh_slots.
  rewrite foldl_insert_lookup, decide_True by done. simpl.
  rewrite foldl_insert_lookup, decide_True by done. simpl.
  by rewrite foldl_insert_lookup, decide_True by done.
Qed.

Lemma grid_mark_is_Some g k d s :
  is_Some (grid_get g k d s) → is_Some (grid_mark g k d s).
Proof.
  unfold grid_get, grid_mark. intros [b Hb].
  destruct (g !! k) as [row|]; simpl in *; [|done].
  destruct (row !! d) as [col|]; simpl in *; [|done]. eauto.
Qed.

(** Marking a cell changes that cell and no other. *)
Lemma grid_mark_get g g' k d s k' d' s' :
  grid_mark g k d s = Some g' →
  grid_get g' k' d' s' =
  if decide (k' = k ∧ d' = d ∧ s' = s) then Some true else grid_get g k' d' s'.
Proof.
  unfold grid_get, grid_mark. intros Hm.
  destruct (g !! k) as [row|] eqn:Hrow; simpl in *; [|done].
  destruct (row !! d) as [col|] eqn:Hcol; simpl in *; [|done].
  injection Hm as <-.
  destruct (decide (k' = k)) as [->|Hk].
  - rewrite lookup_insert_eq, Hrow. simpl.
    destruct (decide (d' = d)) as [->|Hd].
    + rewrite lookup_insert_eq, Hcol. simpl.
      destruct (decide (s' = s)) as [->|Hs].
      * rewrite lookup_insert_eq. by rewrite decide_True.
      * rewrite lookup_insert_ne by done. rewrite decide_False by naive_solver. done.
    + rewrite lookup_insert_ne by done. rewrite decide_False by naive_solver. done.
  - rewrite lookup_insert_ne by done. rewrite decide_False by naive_solver. done.
Qed.

Lemma grid_mark_covers g g' k d s keys ds slots :
  grid_mark g k d s = Some g' → grid_covers g keys ds slots →
  grid_covers g' keys ds slots.
Proof.
  intros Hm Hc k' d' s' Hk Hd Hs. rewrite (grid_mark_get _ _ _ _ _ _ _ _ Hm).
  case_decide; [done|]. by apply Hc.
Qed.

(** ** The monad *)

Lemma bind_eq {A B} (m : M A) (k : A → M B) st :
  (m ≫= k) st = match m st with Some (a, st') => k a st' | None => None end.
Proof. reflexivity. Qed.

Lemma bind_Some {A B} (m : M A) (k : A → M B) st a st' :
  m st = Some (a, st') → (m ≫= k) st = k a st'.
Proof. intros Hm. by rewrite bind_eq, Hm. Qed.

Lemma bind_inv {A B} (m : M A) (k : A → M B) st b st2 :
  (m ≫= k) st = Some (b, st2) →
  ∃ a st1, m st = Some (a, st1) ∧ k a st1 = Some (b, st2).
Proof.
  rewrite bind_eq. destruct (m st) as [[a st1]|]; [|done]. eauto.
Qed.

Ltac msimpl :=
  repeat first [rewrite bind_eq | progress unfold mret, M_ret | progress simpl].

(** A comprehension whose condition only reads is a filter. *)
Lemma filterM_pure {A} (p : A → M bool) (q : A → bool) (l : list A) st :
  (∀ x, x ∈ l → p x st = Some (q x, st)) →
  filterM p l st = Some (filter (λ x, q x) l, st).
Proof.
  induction l as [|a l IH]; intros Hp; [done|].
  simpl. rewrite (bind_Some _ _ _ _ _ (Hp a ltac:(by left))).
  rewrite (bind_Some _ _ _ _ _ (IH (λ x Hx, Hp x ltac:(by right)))).
  unfold mret, M_ret. destruct (q a) eqn:Hq.
  - by rewrite filter_cons_True by (by rewrite Hq).
  - rewrite filter_cons_False; [done|]. rewrite Hq. by intros [].
Qed.

Lemma filter_nil_not_Exists {A} (P : A → Prop) `{∀ x, Decision (P x)} (l : list A) :
  filter P l = [] ↔ ¬ Exists P l.
Proof.
  rewrite Exists_exists. split.
  - intros Hf (x & Hx & HP). by eapply filter_nil_not_elem_of.
  - intros Hn. apply filter_none. intros x Hx HP. apply Hn. eauto.
Qed.

(** ** Reading the schedules *)

Section GeneratorFacts.
Variable lower : string → string.
Variable req : Request.

Local Abbreviation consistent := (consistent req).
Local Abbreviation wf_state := (wf_state req).

Lemma same_schedule_refl st : same_schedule st st.
Proof. by repeat split. Qed.

Lemma same_schedule_trans st1 st2 st3 :
  same_schedule st1 st2 → same_schedule st2 st3 → same_schedule st1 st3.
Proof.
  intros (?&?&?&?&?&?) (?&?&?&?&?&?). repeat split; congruence.
Qed.

Lemma same_schedule_of st st' k :
  same_schedule st st' → schedule_of k st' = schedule_of k st.
Proof. intros (?&?&?&?&?&?). by destruct k. Qed.

Lemma same_schedule_consistent st st' :
  same_schedule st st' → consistent st → consistent st'.
Proof.
  intros Hs (Hwf & Hb & Hnd). pose proof Hs as (Htt&_).
  split; [|split].
  - intros k. rewrite (same_schedule_of _ _ k Hs). apply Hwf.
  - intros k e He. rewrite (same_schedule_of _ _ k Hs). apply Hb.
    by rewrite <- Htt.
  - by rewrite Htt.
Qed.

Lemma teacher_busy_eq name d s st b :
  grid_get (teacher_schedule st) name d s = Some b →
  teacher_busy name d s st = Some (b, st).
Proof. intros Hg. unfold teacher_busy. by rewrite Hg. Qed.

Lemma classroom_busy_eq c d s st b :
  grid_get (classroom_schedule st) c d s = Some b →
  classroom_busy c d s st = Some (b, st).
Proof. intros Hg. unfold classroom_busy. by rewrite Hg. Qed.

Lemma cohort_busy_eq c d s st b :
  grid_get (cohort_schedule st) c d s = Some b →
  cohort_busy c d s st = Some (b, st).
Proof. intros Hg. unfold cohort_busy. by rewrite Hg. Qed.

Lemma is_teacher_available_iff teacher day slot :
  is_teacher_available teacher day slot ↔
  t_availability teacher !! day = None
  ∨ ∃ allowed, t_availability teacher !! day = Some allowed ∧ slot ∈ allowed.
Proof.
  clear lower.
  unfold is_teacher_available.
  destruct (t_availability teacher !! day) as [allowed|].
  - rewrite bool_decide_spec. naive_solver.
  - naive_solver.
Qed.

Lemma semester_in_cohort_keys subject :
  subject ∈ subjects req → semester_of subject ∈ cohort_keys req.
Proof.
  intros Hs. unfold cohort_keys. destruct (subjects req) eqn:Hsub.
  - by apply elem_of_nil in Hs.
  - by apply list_elem_of_fmap_2.
Qed.

(** [can_place] only reads. *)
Lemma can_place_pure subject teacher classroom day slot st r st' :
  can_place subject teacher classroom day slot st = Some (r, st') →
  st' = st.
Proof.
  unfold can_place, teacher_busy, classroom_busy, cohort_busy.
  repeat (msimpl; try congruence;
          match goal with
          | |- context [grid_get ?g ?a ?b ?c] =>
              destruct (grid_get g a b c) as [[]|]
          end).
  msimpl. destruct (is_teacher_available _ _ _); msimpl; congruence.
Qed.

(** [can_place] answers [True] exactly on three unoccupied cells and an
    available teacher. *)
Lemma can_place_true subject teacher classroom day slot st :
  can_place subject teacher classroom day slot st = Some (true, st) ↔
  grid_get (teacher_schedule st) (t_name teacher) day slot = Some false
  ∧ grid_get (classroom_schedule st) classroom day slot = Some false
  ∧ grid_get (cohort_schedule st) (semester_of subject) day slot = Some false
  ∧ is_teacher_available teacher day slot.
Proof.
  clear lower.
  unfold can_place, teacher_busy, classroom_busy, cohort_busy.
  repeat (msimpl;
          match goal with
          | |- context [grid_get ?g ?a ?b ?c] =>
              destruct (grid_get g a b c) as [[]|]; try by naive_solver
          end).
  msimpl. destruct (is_teacher_available _ _ _); msimpl; naive_solver.
Qed.

(** On the cells of the request [can_place] raises nothing. *)
Lemma can_place_total subject teacher classroom day slot st :
  wf_state st → teacher ∈ teachers req → classroom ∈ classrooms req →
  subject ∈ subjects req → day ∈ days req → slot ∈ time_slots req →
  ∃ b, can_place subject teacher classroom day slot st = Some (b, st).
Proof.
  intros Hwf Ht Hc Hs Hd Hsl.
  destruct (Hwf KTeacher (t_name teacher) day slot) as [b1 Hb1];
    [by apply list_elem_of_fmap_2|done|done|].
  destruct (Hwf KClassroom classroom day slot) as [b2 Hb2]; [done..|].
  destruct (Hwf KCohort (semester_of subject) day slot) as [b3 Hb3];
    [|done|done|].
  { by apply semester_in_cohort_keys. }
  simpl in *. unfold can_place, teacher_busy, classroom_busy, cohort_busy.
  msimpl. rewrite Hb1. msimpl. destruct b1; [by eexists|].
  msimpl. rewrite Hb2. msimpl. destruct b2; [by eexists|].
  msimpl. rewrite Hb3. msimpl. destruct b3; [by eexists|].
  destruct (is_teacher_available _ _ _); by eexists.
Qed.

Lemma free_classrooms_eq day slot st :
  wf_state st → day ∈ days req → slot ∈ time_slots req →
  free_classrooms req day slot st =
  Some (filter (λ c, grid_get (classroom_schedule st) c day slot = Some false)
               (classrooms req), st).
Proof.
  intros Hwf Hd Hs. unfold free_classrooms.
  rewrite (filterM_pure _
    (λ c, bool_decide (grid_get (classroom_schedule st) c day slot = Some false))).
  - f_equal. f_equal. apply list_filter_iff. intros c.
    by rewrite bool_decide_spec.
  - intros c Hc. destruct (Hwf KClassroom c day slot) as [b Hb]; [done..|].
    simpl in Hb. msimpl. rewrite (classroom_busy_eq _ _ _ _ _ Hb), Hb.
    by destruct b.
Qed.

Lemma day_slot_pairs_elem d s :
  (d, s) ∈ day_slot_pairs req ↔ d ∈ days req ∧ s ∈ time_slots req.
Proof.
  unfold day_slot_pairs. rewrite list_elem_of_bind. split.
  - intros (d' & Hds & Hd). apply list_elem_of_bind in Hds as (s' & Hds & Hs).
    apply list_elem_of_singleton in Hds. by simplify_eq.
  - intros [Hd Hs]. exists d. split; [|done].
    apply list_elem_of_bind. exists s. split; [by left|done].
Qed.

(** ** Committing an entry *)

Lemma step_result_skip subject st st1 b st2 :
  same_schedule st st1 → step_result req subject st1 b st2 →
  step_result req subject st b st2.
Proof.
  intros Hs (Hc & Hcf & Hb). pose proof Hs as (Htt & Hcf' & _).
  split; [done|]. split; [congruence|].
  destruct b.
  - destruct Hb as (e & He & Hof). exists e. split; [congruence|done].
  - by eapply same_schedule_trans.
Qed.

Lemma place_entry_ok subject teacher classroom day slot st :
  consistent st →
  can_place subject teacher classroom day slot st = Some (true, st) →
  ∃ st', place_entry subject teacher classroom day slot st = Some ((), st')
         ∧ step_result req subject st true st'.
Proof.
  clear lower.
  intros (Hwf & Hbk & Hnd) (Hft & Hfc & Hfs & _)%can_place_true.
  destruct (grid_mark_is_Some _ _ _ _ (mk_is_Some _ _ Hft)) as [ts Hts].
  destruct (grid_mark_is_Some _ _ _ _ (mk_is_Some _ _ Hfc)) as [cs Hcs].
  destruct (grid_mark_is_Some _ _ _ _ (mk_is_Some _ _ Hfs)) as [co Hco].
  unfold place_entry. rewrite Hts, Hcs, Hco. simpl.
  eexists. split; [done|].
  set (e := {| e_day := day; e_time_slot := slot; e_subject := s_name subject;
               e_teacher := t_name teacher; e_classroom := classroom;
               e_semester := Some (semester_of subject) |}).
  set (st' := {| timetable := timetable st ++ [e] |}).
  assert (∀ k, grid_get (schedule_of k st) (entity k e) day slot = Some false)
    as Hfree by (by intros []).
  assert (∀ k, grid_mark (schedule_of k st) (entity k e) day slot
               = Some (schedule_of k st')) as Hmark by (by intros []).
  split; [|split; [done|by exists e]].
  split; [|split].
  - intros k. eapply grid_mark_covers; [apply Hmark|apply Hwf].
  - intros k e' He'. rewrite (grid_mark_get _ _ _ _ _ _ _ _ (Hmark k)).
    case_decide; [done|].
    simpl in He'. apply elem_of_app in He' as [He'|He'].
    + by apply Hbk.
    + apply list_elem_of_singleton in He' as ->. naive_solver.
  - intros k x d s. simpl. unfold subgroup. rewrite filter_app, length_app.
    fold (subgroup k x d s (timetable st)).
    destruct (decide (e_day e = d ∧ e_time_slot e = s ∧ entity k e = x))
      as [(Hd & Hs & Hx)|Hne].
    + rewrite filter_cons_True, filter_nil by done. simpl.
      destruct (subgroup k x d s (timetable st)) as [|e' l] eqn:Hsg; [done|].
      assert (e' ∈ subgroup k x d s (timetable st)) as He'
        by (rewrite Hsg; by left).
      apply list_elem_of_filter in He' as [(Hd' & Hs' & Hx') He'].
      specialize (Hbk k e' He'). specialize (Hfree k).
      rewrite Hx', <- Hx, Hd', Hs' in Hbk. simpl in Hd, Hs. subst d s.
      congruence.
    + rewrite filter_cons_False, filter_nil by done. simpl.
      specialize (Hnd k x d s). lia.
Qed.

(** ** One attempt *)

Lemma step_result_none subject st : consistent st → step_result req subject st false st.
Proof. intros Hc. split; [done|]. split; [done|apply same_schedule_refl]. Qed.

Lemma try_classrooms_ok subject teacher day slot cs st :
  consistent st → teacher ∈ teachers req → subject ∈ subjects req →
  day ∈ days req → slot ∈ time_slots req → cs ⊆ classrooms req →
  ∃ b st', try_classrooms subject teacher day slot cs st = Some (b, st')
           ∧ step_result req subject st b st'.
Proof.
  intros Hc Ht Hsub Hd Hs. induction cs as [|c cs IH]; intros Hcs.
  - exists false, st. split; [done|by apply step_result_none].
  - destruct (can_place_total subject teacher c day slot st) as [b Hb];
      [apply Hc|done|apply Hcs; by left|done..|].
    simpl. rewrite (bind_Some _ _ _ _ _ Hb). destruct b.
    + destruct (place_entry_ok _ _ _ _ _ _ Hc Hb) as (st' & Hp & Hr).
      exists true, st'. by rewrite (bind_Some _ _ _ _ _ Hp).
    + apply IH. intros c' ?. apply Hcs. by right.
Qed.

Lemma shuffleM_ok {A} (l : list A) st :
  ∃ l' st', shuffleM l st = Some (l', st') ∧ l' ≡ₚ l ∧ same_schedule st st'.
Proof.
  unfold shuffleM. pose proof (shuffle_Permutation l (rng st)) as Hp.
  destruct (shuffle l (rng st)) as [l' g']. eexists _, _.
  split; [done|]. split; [done|by repeat split].
Qed.

Lemma try_teachers_ok subject day slot ts st :
  consistent st → subject ∈ subjects req →
  day ∈ days req → slot ∈ time_slots req → ts ⊆ teachers req →
  ∃ b st', try_teachers req subject day slot ts st = Some (b, st')
           ∧ step_result req subject st b st'.
Proof.
  intros Hc Hsub Hd Hs. revert st Hc.
  induction ts as [|t ts IH]; intros st Hc Hts.
  - exists false, st. split; [done|by apply step_result_none].
  - assert (ts ⊆ teachers req) as Hts' by (intros t' ?; apply Hts; by right).
    simpl. destruct (is_teacher_available t day slot); simpl; [|by apply IH].
    rewrite (bind_Some _ _ _ _ _ (free_classrooms_eq _ _ _ (proj1 Hc) Hd Hs)).
    destruct (shuffleM_ok
      (filter (λ c, grid_get (classroom_schedule st) c day slot = Some false)
              (classrooms req)) st) as (free & st1 & Hsh & Hperm & Hs1).
    rewrite (bind_Some _ _ _ _ _ Hsh).
    destruct (try_classrooms_ok subject t day slot free st1)
      as (b & st2 & Htry & Hr);
      [by eapply same_schedule_consistent|apply Hts; by left|done..| |].
    { intros c Hcin. rewrite Hperm in Hcin.
      by apply list_elem_of_filter in Hcin as [_ ?]. }
    rewrite (bind_Some _ _ _ _ _ Htry). destruct b.
    + exists true, st2. split; [done|by eapply step_result_skip].
    + destruct (IH st2) as (b & st3 & Htry' & Hr'); [apply Hr|done|].
      exists b, st3. split; [done|].
      eapply step_result_skip; [|done].
      eapply same_schedule_trans; [done|apply Hr].
Qed.

Lemma available_teachers_eq subject day slot st :
  wf_state st → day ∈ days req → slot ∈ time_slots req →
  available_teachers lower req subject day slot st =
  Some (filter (λ t, teaches lower subject t
                     ∧ grid_get (teacher_schedule st) (t_name t) day slot
                       = Some false
                     ∧ is_teacher_available t day slot) (teachers req), st).
Proof.
  intros Hwf Hd Hs. unfold available_teachers.
  rewrite (filterM_pure _
    (λ t, teaches lower subject t
          && bool_decide (grid_get (teacher_schedule st) (t_name t) day slot
                          = Some false)
          && is_teacher_available t day slot)).
  - f_equal. f_equal. apply list_filter_iff. intros t.
    rewrite !andb_True, bool_decide_spec. tauto.
  - intros t Ht. destruct (teaches lower subject t); [|done].
    destruct (Hwf KTeacher (t_name t) day slot) as [b Hb];
      [by apply list_elem_of_fmap_2|done..|].
    simpl in Hb. msimpl. rewrite (teacher_busy_eq _ _ _ _ _ Hb), Hb.
    by destruct b.
Qed.

(** The scan of [suggest_alternatives]: it keeps, in order, the pairs
    that qualify, stops once the list holds [max_suggestions] of them,
    and leaves the state as it found it. *)
Lemma suggest_loop_eq subject max_suggestions pairs suggestions st :
  wf_state st → subject ∈ subjects req →
  pairs ⊆ day_slot_pairs req →
  Z.of_nat (length suggestions) < max_suggestions →
  suggest_loop lower req subject max_suggestions pairs suggestions st =
  Some (suggestions
        ++ ((λ p, suggestion p.1 p.2) <$>
            take (Z.to_nat max_suggestions - length suggestions)
                 (filter (qualifies lower req st subject) pairs)), st).
Proof.
  intros Hwf Hsub. revert suggestions.
  induction pairs as [|[day slot] rest IH]; intros suggestions Hp Hlen.
  - rewrite filter_nil, take_nil. simpl. by rewrite app_nil_r.
  - assert ((day, slot) ∈ day_slot_pairs req) as Hds by (apply Hp; by left).
    apply day_slot_pairs_elem in Hds as [Hd Hs].
    assert (rest ⊆ day_slot_pairs req) as Hrest
      by (intros p ?; apply Hp; by right).
    simpl. rewrite (bind_Some _ _ _ _ _ (available_teachers_eq _ _ _ _ Hwf Hd Hs)).
    destruct (decide (Exists (λ t, teaches lower subject t
                     ∧ grid_get (teacher_schedule st) (t_name t) day slot
                       = Some false
                     ∧ is_teacher_available t day slot) (teachers req)))
      as [Ht|Ht].
    2:{ rewrite bool_decide_true by (by apply filter_nil_not_Exists).
        rewrite IH by done. rewrite filter_cons_False; [done|].
        intros (? & _). done. }
    rewrite bool_decide_false by (by rewrite filter_nil_not_Exists; intros []).
    rewrite (bind_Some _ _ _ _ _ (free_classrooms_eq _ _ _ Hwf Hd Hs)).
    destruct (decide (Exists (λ c, grid_get (classroom_schedule st) c day slot
                                   = Some false) (classrooms req))) as [Hc|Hc].
    2:{ rewrite bool_decide_true by (by apply filter_nil_not_Exists).
        rewrite IH by done. rewrite filter_cons_False; [done|].
        intros (_ & ? & _). done. }
    rewrite bool_decide_false by (by rewrite filter_nil_not_Exists; intros []).
    destruct (Hwf KCohort (semester_of subject) day slot) as [b Hb];
      [by apply semester_in_cohort_keys|done..|].
    simpl in Hb. rewrite (bind_Some _ _ _ _ _ (cohort_busy_eq _ _ _ _ _ Hb)).
    destruct b.
    { rewrite IH by done. rewrite filter_cons_False; [done|].
      intros (_ & _ & Hq). simpl in Hq. congruence. }
    rewrite filter_cons_True by done.
    rewrite length_app. simpl.
    destruct (Z.to_nat max_suggestions - length suggestions)%nat as [|n] eqn:Hn;
      [lia|]. simpl.
    case_bool_decide as Hmax.
    + assert (n = 0)%nat as -> by lia. rewrite take_0. done.
    + rewrite IH by (done || rewrite length_app; simpl; lia).
      rewrite length_app. simpl. rewrite <- app_assoc. simpl.
      replace (Z.to_nat max_suggestions - (length suggestions + 1))%nat
        with n by lia.
      done.
Qed.

Lemma try_candidates_ok subject cands st :
  consistent st → subject ∈ subjects req →
  (∀ c, c ∈ cands → (c.1.2, c.2) ∈ day_slot_pairs req) →
  ∃ b st', try_candidates lower req subject cands st = Some (b, st')
           ∧ step_result req subject st b st'.
Proof.
  intros Hc Hsub. revert st Hc.
  induction cands as [|[[score day] slot] cands IH]; intros st Hc Hcands.
  - exists false, st. split; [done|by apply step_result_none].
  - destruct (proj1 (day_slot_pairs_elem day slot)
                (Hcands _ ltac:(by left))) as [Hd Hs].
    simpl.
    destruct (shuffleM_ok (filter (λ t, teaches lower subject t) (teachers req)) st)
      as (ts & st1 & Hsh & Hperm & Hs1).
    rewrite (bind_Some _ _ _ _ _ Hsh).
    destruct (try_teachers_ok subject day slot ts st1)
      as (b & st2 & Htry & Hr); [by eapply same_schedule_consistent|done..| |].
    { intros t Ht. rewrite Hperm in Ht.
      by apply list_elem_of_filter in Ht as [_ ?]. }
    rewrite (bind_Some _ _ _ _ _ Htry). destruct b.
    + exists true, st2. split; [done|by eapply step_result_skip].
    + destruct (IH st2) as (b & st3 & Htry' & Hr');
        [apply Hr|intros c ?; apply Hcands; by right|].
      exists b, st3. split; [done|].
      eapply step_result_skip; [|done].
      eapply same_schedule_trans; [done|apply Hr].
Qed.

Lemma try_candidates_no_teacher subject cands st r :
  filter (λ t, teaches lower subject t) (teachers req) = [] →
  try_candidates lower req subject cands st = Some r → r.1 = false.
Proof.
  intros Hnil. revert st. induction cands as [|[[score day] slot] cands IH];
    intros st; simpl; [by intros [= <-]|].
  rewrite Hnil. unfold shuffleM, shuffle. simpl. msimpl. apply IH.
Qed.

Lemma insert_by_score_Permutation c l : insert_by_score c l ≡ₚ c :: l.
Proof.
  induction l as [|c' l IH]; simpl; [done|].
  case_decide; [done|]. rewrite IH. apply Permutation_swap.
Qed.

Lemma sort_by_score_Permutation l : sort_by_score l ≡ₚ l.
Proof.
  induction l as [|c l IH]; simpl; [done|].
  by rewrite insert_by_score_Permutation, IH.
Qed.

Lemma day_slot_pairs_nil :
  days req = [] ∨ time_slots req = [] → day_slot_pairs req = [].
Proof.
  unfold day_slot_pairs. intros [->| ->]; [done|].
  induction (days req) as [|d ds IH]; [done|]. by csimpl.
Qed.

Lemma attempt_ok subject st :
  consistent st → subject ∈ subjects req →
  ∃ b st', attempt lower req subject st = Some (b, st')
           ∧ step_result req subject st b st'
           ∧ (unplaceable lower req subject → b = false).
Proof.
  intros Hc Hsub. unfold attempt, candidates. rewrite bind_eq.
  set (cands := sort_by_score _).
  destruct (try_candidates_ok subject cands st) as (b & st' & Htry & Hr);
    [done..| |].
  { intros c. unfold cands. rewrite sort_by_score_Permutation.
    intros ([d s] & -> & Hds)%list_elem_of_fmap. done. }
  exists b, st'. split; [done|]. split; [done|].
  intros [Hd|[Hs|Ht]].
  - revert Htry. unfold cands. rewrite day_slot_pairs_nil by auto.
    simpl. by intros [= <- _].
  - revert Htry. unfold cands. rewrite day_slot_pairs_nil by auto.
    simpl. by intros [= <- _].
  - by apply (try_candidates_no_teacher _ _ _ _ Ht Htry).
Qed.

(** ** The placement loop of one subject *)

Lemma place_loop_ok subject fuel placed attempts st :
  consistent st → subject ∈ subjects req →
  ∃ p a st' new,
    place_loop lower req subject fuel placed attempts st = Some ((p, a), st')
    ∧ consistent st'
    ∧ conflicts st' = conflicts st
    ∧ timetable st' = timetable st ++ new
    ∧ Forall (entry_of subject) new
    ∧ Z.of_nat (length new) = p - placed
    ∧ p ≤ Z.max placed (sessions_of subject)
    ∧ attempts ≤ a ≤ Z.max attempts (sessions_of subject * 300)
    ∧ a - attempts ≤ p - placed + 1
    ∧ (unplaceable lower req subject → p = placed).
Proof.
  intros Hc Hsub. revert placed attempts st Hc.
  induction fuel as [|fuel IH]; intros placed attempts st Hc.
  { exists placed, attempts, st, []. simpl. rewrite app_nil_r.
    split_and!; first [done | lia | by constructor]. }
  simpl. case_bool_decide as Hguard.
  2:{ exists placed, attempts, st, []. simpl. rewrite app_nil_r.
      split_and!; first [done | lia | by constructor]. }
  destruct (attempt_ok subject st Hc Hsub) as (b & st1 & Hat & Hr & Hun).
  rewrite (bind_Some _ _ _ _ _ Hat). destruct Hr as (Hc1 & Hcf1 & Hb).
  destruct b.
  - destruct Hb as (e & Htt1 & He).
    destruct (IH (placed + 1) (attempts + 1) st1 Hc1)
      as (p & a & st' & new & Hl & Hc' & Hcf' & Htt' & Hnew & Hlen & Hp & Ha & Hap & _).
    exists p, a, st', (e :: new). split; [done|]. split; [done|].
    split; [congruence|]. split; [by rewrite Htt', Htt1, <- app_assoc|].
    split; [by constructor|]. simpl length.
    repeat split; try lia. intros Hu. by specialize (Hun Hu).
  - exists placed, (attempts + 1), st1, []. simpl. rewrite app_nil_r.
    destruct Hb as (Htt & _). split_and!; first [done | lia | by constructor].
Qed.

Lemma qualifies_unplaceable subject st pairs :
  unplaceable lower req subject → pairs ⊆ day_slot_pairs req →
  filter (qualifies lower req st subject) pairs = [].
Proof.
  intros Hu Hp. apply filter_none. intros [d s] Hds (Ht & _).
  destruct Hu as [Hd|[Hs|Hn]].
  - apply Hp in Hds. rewrite day_slot_pairs_nil in Hds by auto.
    by apply elem_of_nil in Hds.
  - apply Hp in Hds. rewrite day_slot_pairs_nil in Hds by auto.
    by apply elem_of_nil in Hds.
  - apply Exists_exists in Ht as (t & Ht & Hteach & _).
    eapply filter_nil_not_elem_of; [apply Hn| |apply Ht]. done.
Qed.

Lemma consistent_conflicts st cs :
  consistent st →
  consistent {| timetable := timetable st; conflicts := cs;
                teacher_schedule := teacher_schedule st;
                classroom_schedule := classroom_schedule st;
                cohort_schedule := cohort_schedule st;
                cohort_load := cohort_load st; rng := rng st |}.
Proof.
  intros (Hwf & Hbk & Hnd). split; [|split; [|done]].
  - intros k. specialize (Hwf k). by destruct k.
  - intros k e He. specialize (Hbk k e He). by destruct k.
Qed.

(** One round of [for subject in self.subjects] returns, keeps the
    invariant, and appends what its outcome says. *)
Lemma schedule_subject_ok subject st :
  consistent st → subject ∈ subjects req →
  ∃ o st',
    schedule_subject lower req subject st = Some ((o_placed o, o_attempts o), st')
    ∧ consistent st'
    ∧ timetable st' = timetable st ++ o_entries o
    ∧ conflicts st' = conflicts st ++ o_conflicts o
    ∧ subject_outcome lower req subject o.
Proof.
  intros Hc Hsub. unfold schedule_subject.
  destruct (place_loop_ok subject (Z.to_nat (sessions_of subject * 300)) 0 0 st Hc Hsub)
    as (p & a & st1 & new & Hl & Hc1 & Hcf1 & Htt1 & Hnew & Hlen & Hp & Ha & Hap & Hun).
  rewrite (bind_Some _ _ _ _ _ Hl). simpl.
  case_bool_decide as Hlt.
  - unfold suggest_alternatives.
    rewrite bind_eq, (bind_Some _ _ _ _ _
      (suggest_loop_eq subject 5 _ [] st1 (proj1 Hc1) Hsub
         (reflexivity _) ltac:(simpl; lia))).
    simpl.
    set (sugg := (λ p0 : string * string, suggestion p0.1 p0.2) <$> _).
    exists {| o_placed := p; o_attempts := a; o_entries := new;
              o_conflicts := [Unplaced (semester_of subject) [s_name subject]
                                       (sessions_of subject - p) sugg] |}.
    eexists. split; [done|]. simpl.
    split; [by apply consistent_conflicts|]. split; [done|].
    split; [by rewrite Hcf1|].
    unfold subject_outcome. simpl.
    split_and!; first [done | lia | by constructor | idtac].
    rewrite decide_True by done. exists sugg. split; [done|].
    split.
    + unfold sugg. rewrite length_fmap, length_take. lia.
    + intros Hu. unfold sugg. by rewrite qualifies_unplaceable.
  - exists {| o_placed := p; o_attempts := a; o_entries := new;
              o_conflicts := [] |}, st1.
    split; [done|]. simpl. split; [done|]. split; [done|].
    split; [by rewrite app_nil_r|].
    unfold subject_outcome. simpl.
    split_and!; first [done | lia | by constructor | idtac].
    by rewrite decide_False by done.
Qed.

Lemma forM_schedule_ok subs st :
  consistent st → subs ⊆ subjects req →
  ∃ outs st',
    forM (schedule_subject lower req) subs st
      = Some ((λ o, (o_placed o, o_attempts o)) <$> outs, st')
    ∧ consistent st'
    ∧ Forall2 (subject_outcome lower req) subs outs
    ∧ timetable st' = timetable st ++ concat (o_entries <$> outs)
    ∧ conflicts st' = conflicts st ++ concat (o_conflicts <$> outs).
Proof.
  revert st. induction subs as [|subject subs IH]; intros st Hc Hsubs.
  - exists [], st. simpl. rewrite !app_nil_r.
    split_and!; first [done | by constructor].
  - destruct (schedule_subject_ok subject st Hc (Hsubs _ ltac:(by left)))
      as (o & st1 & Hs & Hc1 & Htt1 & Hcf1 & Ho).
    destruct (IH st1 Hc1) as (outs & st2 & Hf & Hc2 & Hos & Htt2 & Hcf2).
    { intros s' ?. apply Hsubs. by right. }
    exists (o :: outs), st2. simpl.
    rewrite (bind_Some _ _ _ _ _ Hs), (bind_Some _ _ _ _ _ Hf).
    split; [done|]. split; [done|]. split; [by constructor|].
    csimpl. rewrite Htt2, Htt1, Hcf2, Hcf1, <- !app_assoc. done.
Qed.

Lemma init_state_consistent g : consistent (init_state req g).
Proof.
  split; [|split].
  - intros k key d s Hk Hd Hs. exists false.
    destruct k; simpl; by apply fresh_grid_get.
  - intros k e He. by apply elem_of_nil in He.
  - intros k x d s. simpl. lia.
Qed.

(** A generation run: it returns; the timetable and the conflict list
    are the concatenated per-subject outcomes; nothing is
    double-booked, so [detect_conflicts] adds nothing. *)
Lemma generate_run g :
  ∃ outs st,
    generate_trace lower req g
      = Some ((λ o, (o_placed o, o_attempts o)) <$> outs, st)
    ∧ generate lower req g
      = Some (concat (o_entries <$> outs), concat (o_conflicts <$> outs))
    ∧ timetable st = concat (o_entries <$> outs)
    ∧ conflicts st = concat (o_conflicts <$> outs)
    ∧ Forall2 (subject_outcome lower req) (subjects req) outs
    ∧ no_double_booking (timetable st).
Proof.
  destruct (forM_schedule_ok (subjects req) (init_state req g)
              (init_state_consistent g) (reflexivity _))
    as (outs & st & Hf & Hc & Hos & Htt & Hcf).
  simpl in Htt, Hcf.
  assert (detect (timetable st) = []) as Hdet by (apply detect_nil_iff, Hc).
  eexists outs, _. unfold generate, generate_trace.
  rewrite (bind_Some _ _ _ _ _ Hf). unfold detect_conflicts. msimpl.
  rewrite Hdet, app_nil_r, Htt, Hcf.
  split; [done|]. split; [done|]. split; [done|]. split; [done|].
  split; [done|]. rewrite <- Htt. apply Hc.
Qed.
End GeneratorFacts.

(** ** Reports on permuted timetables *)

Lemma NoDup_fmap_filter {A B} `{EqDecision B} (f : A → B) (L : list A) :
  (∀ y, (length (filter (λ c, f c = y) L) ≤ 1)%nat) → NoDup (f <$> L).
Proof.
  induction L as [|a L IH]; intros Hf; csimpl; [constructor|].
  constructor.
  - intros (c & Hc & Hin)%list_elem_of_fmap.
    specialize (Hf (f a)). rewrite filter_cons_True in Hf by done.
    assert (c ∈ filter (λ c, f c = f a) L) as Hcin
      by (by apply list_elem_of_filter).
    destruct (filter (λ c, f c = f a) L); [by apply elem_of_nil in Hcin|].
    simpl in Hf. lia.
  - apply IH. intros y. specialize (Hf y).
    destruct (decide (f a = y)).
    + rewrite filter_cons_True in Hf by done. simpl in Hf. lia.
    + by rewrite filter_cons_False in Hf.
Qed.

(** No two records of a report share kind, entity, day and slot. *)
Lemma detect_key_NoDup tt : NoDup (clash_key <$> detect tt).
Proof.
  apply NoDup_fmap_filter. intros [[[[k x] d] s]|].
  - rewrite detect_filter_key. case_decide; simpl; lia.
  - rewrite filter_none; [simpl; lia|].
    intros c Hc Hnone.
    pose proof (proj1 (Forall_forall _ _) (detect_keyed tt) c Hc) as [? ?].
    congruence.
Qed.

Lemma detect_elem tt c :
  c ∈ detect tt ↔
  ∃ k x d s, c = clash k x d s (e_subject <$> subgroup k x d s tt)
             ∧ (1 < length (subgroup k x d s tt))%nat.
Proof.
  split.
  - intros Hc.
    destruct (proj1 (Forall_forall _ _) (detect_keyed tt) c Hc)
      as [[[[k x] d] s] Hk].
    assert (c ∈ filter (λ c, clash_key c = Some (k, x, d, s)) (detect tt)) as Hf
      by (by apply list_elem_of_filter).
    rewrite detect_filter_key in Hf. case_decide; [|by apply elem_of_nil in Hf].
    apply list_elem_of_singleton in Hf. by exists k, x, d, s.
  - intros (k & x & d & s & -> & Hlen).
    pose proof (detect_filter_key tt k x d s) as Hf.
    rewrite decide_True in Hf by done.
    assert (clash k x d s (e_subject <$> subgroup k x d s tt)
            ∈ filter (λ c, clash_key c = Some (k, x, d, s)) (detect tt)) as Hin
      by (rewrite Hf; by left).
    by apply list_elem_of_filter in Hin as [_ ?].
Qed.

Lemma subgroup_Permutation k x d s tt1 tt2 :
  tt1 ≡ₚ tt2 → subgroup k x d s tt1 ≡ₚ subgroup k x d s tt2.
Proof. intros Hp. unfold subgroup. by rewrite Hp. Qed.

Lemma clash_key_clash k x d s subs : clash_key (clash k x d s subs) = Some (k, x, d, s).
Proof. by destruct k. Qed.

Lemma conflict_subjects_clash k x d s subs : conflict_subjects (clash k x d s subs) = subs.
Proof. by destruct k. Qed.

Lemma detect_Permutation_elem tt1 tt2 c :
  tt1 ≡ₚ tt2 → c ∈ detect tt1 → ∃ c', c' ∈ detect tt2 ∧ same_clash c c'.
Proof.
  intros Hp (k & x & d & s & -> & Hlen)%detect_elem.
  pose proof (subgroup_Permutation k x d s _ _ Hp) as Hsg.
  exists (clash k x d s (e_subject <$> subgroup k x d s tt2)). split.
  - apply detect_elem. exists k, x, d, s. split; [done|]. by rewrite <- Hsg.
  - split; [by rewrite !clash_key_clash|].
    rewrite !conflict_subjects_clash. by rewrite Hsg.
Qed.

(** Two lists without repeated keys whose elements match each other
    under a relation that fixes the key are equal up to order and the
    relation. *)
Lemma match_by_key {A B} (f : A → B) (R : A → A → Prop) (L1 L2 : list A) :
  (∀ a b, R a b → f a = f b) →
  NoDup (f <$> L1) → NoDup (f <$> L2) →
  (∀ a, a ∈ L1 → ∃ b, b ∈ L2 ∧ R a b) →
  (∀ b, b ∈ L2 → ∃ a, a ∈ L1 ∧ R a b) →
  ∃ L, L1 ≡ₚ L ∧ Forall2 R L L2.
Proof.
  intros HR. revert L2. induction L1 as [|a L1 IH]; intros L2 Hn1 Hn2 H12 H21.
  - destruct L2 as [|b L2]; [by exists []|].
    destruct (H21 b) as (a & Ha & _); [by left|]. by apply elem_of_nil in Ha.
  - destruct (H12 a) as (b & Hb & Hab); [by left|].
    apply list_elem_of_split in Hb as (A1 & A2 & ->).
    rewrite fmap_cons in Hn1. apply NoDup_cons in Hn1 as [Ha Hn1].
    rewrite fmap_app, fmap_cons in Hn2.
    apply NoDup_app in Hn2 as (HnA1 & Hdisj & Hn2).
    apply NoDup_cons in Hn2 as [HbA2 HnA2].
    destruct (IH (A1 ++ A2)) as (L & HpL & HfL); [done| | | |].
    + rewrite fmap_app. apply NoDup_app. split; [done|]. split; [|done].
      intros y Hy1 Hy2. apply (Hdisj y Hy1). by right.
    + intros a' Ha'. destruct (H12 a') as (b' & Hb' & Hab'); [by right|].
      exists b'. split; [|done].
      rewrite elem_of_app, elem_of_cons in Hb'. rewrite elem_of_app.
      destruct Hb' as [?|[->|?]]; [by left| |by right].
      exfalso. apply Ha. rewrite (HR _ _ Hab), <- (HR _ _ Hab').
      by apply list_elem_of_fmap_2.
    + intros b' Hb'. destruct (H21 b') as (a' & Ha' & Hab').
      { rewrite elem_of_app, elem_of_cons. rewrite elem_of_app in Hb'. tauto. }
      exists a'. split; [|done].
      apply elem_of_cons in Ha' as [->|?]; [|done].
      exfalso. assert (f b' = f b) as Hfb by (by rewrite <- (HR _ _ Hab), (HR _ _ Hab')).
      apply elem_of_app in Hb' as [Hb'|Hb'].
      * apply (Hdisj (f b)); [rewrite <- Hfb; by apply list_elem_of_fmap_2|by left].
      * apply HbA2. rewrite <- Hfb. by apply list_elem_of_fmap_2.
    + apply Forall2_app_inv_r in HfL as (L1' & L2' & HF1 & HF2 & ->).
      exists (L1' ++ a :: L2'). split.
      * rewrite HpL. apply Permutation_middle.
      * apply Forall2_app; [done|]. by constructor.
Qed.

(** ** The fuel of the placement loop *)

Lemma place_loop_fuel lower req subject fuel fuel' placed attempts st :
  (Z.to_nat (sessions_of subject * 300 - attempts) ≤ fuel)%nat →
  (Z.to_nat (sessions_of subject * 300 - attempts) ≤ fuel')%nat →
  place_loop lower req subject fuel placed attempts st
  = place_loop lower req subject fuel' placed attempts st.
Proof.
  revert fuel' placed attempts st.
  induction fuel as [|fuel IH]; intros fuel' placed attempts st Hf Hf'.
  - destruct fuel' as [|fuel']; [done|]. simpl.
    rewrite bool_decide_false by lia. done.
  - destruct fuel' as [|fuel']; simpl.
    + rewrite bool_decide_false by lia. done.
    + case_bool_decide; [|done]. rewrite !bind_eq.
      destruct (attempt lower req subject st) as [[[] st1]|]; [|done..].
      apply IH; lia.
Qed.

(** ** Sample runs *)

Example shuffle_sample :
  (shuffle [1; 2; 3; 4; 5] sample_rng).1 = [5; 4; 3; 2; 1].
Proof. reflexivity. Qed.

Example sort_by_score_stable :
  sort_by_score [(10, "Mon", "a"); (0, "Tue", "a"); (10, "Mon", "b"); (0, "Tue", "b")]
  = [(0, "Tue", "a"); (0, "Tue", "b"); (10, "Mon", "a"); (10, "Mon", "b")].
Proof. reflexivity. Qed.

Example week_run :
  generate ascii_lower week_request sample_rng
  = Some ([{| e_day := "Mon"; e_time_slot := "9:00"; e_subject := "Math";
              e_teacher := "Ann"; e_classroom := "R1"; e_semester := Some "A" |};
           {| e_day := "Tue"; e_time_slot := "9:00"; e_subject := "Math";
              e_teacher := "Ann"; e_classroom := "R1"; e_semester := Some "A" |};
           {| e_day := "Wed"; e_time_slot := "9:00"; e_subject := "Math";
              e_teacher := "Ann"; e_classroom := "R1"; e_semester := Some "A" |}],
          []).
Proof. reflexivity. Qed.

Example crowded_run :
  generate ascii_lower crowded_request sample_rng
  = Some ([{| e_day := "Mon"; e_time_slot := "9:00"; e_subject := "Math";
              e_teacher := "Ann"; e_classroom := "R2"; e_semester := Some "A" |}],
          [Unplaced "A" ["Math"] 1 []; Unplaced "A" ["Physics"] 2 []]).
Proof. reflexivity. Qed.

Example small_run_trace :
  fst <$> generate_trace ascii_lower small_request sample_rng = Some [(2, 3)].
Proof. reflexivity. Qed.

(** * The claims *)

Lemma Forall2_with_l {A B} (P : A → B → Prop) (Q : A → Prop) l k :
  Forall2 P l k → Forall Q l → Forall2 (λ x y, P x y ∧ Q x) l k.
Proof.
  induction 1 as [|x y l k Hxy Hlk IH]; intros HQ; [constructor|].
  apply Forall_cons in HQ as [? ?]. constructor; [done|by apply IH].
Qed.

Lemma outcome_conflicts_unkeyed lower req subs outs :
  Forall2 (subject_outcome lower req) subs outs →
  Forall (λ c, clash_key c = None) (concat (o_conflicts <$> outs)).
Proof.
  induction 1 as [|s o subs outs Ho Hos IH]; csimpl; [constructor|].
  apply Forall_app. split; [|done].
  destruct Ho as (_ & _ & _ & _ & _ & _ & Hcf).
  case_decide; [|rewrite Hcf; constructor].
  destruct Hcf as (sugg & -> & _). by repeat constructor.
Qed.

(** C1. No double-booking: every run of [generate] returns a timetable
    in which, at every (day, slot), each teacher, each classroom and
    each cohort has at most one entry; the detector finds no clash in
    it, and the returned conflict list holds no resource-clash record. *)
Theorem no_double_booking_generated lower req g :
  ∃ tt cs,
    generate lower req g = Some (tt, cs)
    ∧ (∀ k x day slot, (length (subgroup k x day slot tt) ≤ 1)%nat)
    ∧ detect tt = []
    ∧ Forall (λ c, clash_key c = None) cs.
Proof.
  destruct (generate_run lower req g)
    as (outs & st & _ & Hgen & Htt & _ & Hos & Hnd).
  eexists _, _. split; [exact Hgen|]. rewrite <- Htt.
  split; [exact Hnd|]. split; [by apply detect_nil_iff|].
  by eapply outcome_conflicts_unkeyed.
Qed.

(** C2. The detector's contract: [detect_conflicts] groups the entries
    by (day, slot) and, within a group, by teacher, by classroom and by
    cohort; for every kind, entity, day and slot it emits exactly one
    record when the sub-group has more than one entry and none
    otherwise, and the record lists the subjects of the whole sub-group;
    it emits nothing else.  Two entries with the same teacher, day and
    slot in different classrooms give one teacher record with both
    subjects and no classroom record. *)
Theorem detect_contract tt :
  detect tt = detect_spec tt
  ∧ (∀ k x d s,
       filter (λ c, clash_key c = Some (k, x, d, s)) (detect tt)
       = if decide (1 < length (subgroup k x d s tt))%nat
         then [clash k x d s (e_subject <$> subgroup k x d s tt)]
         else [])
  ∧ Forall (λ c, is_Some (clash_key c)) (detect tt)
  ∧ (∀ e1 e2,
       tt = [e1; e2] →
       e_teacher e1 = e_teacher e2 → e_day e1 = e_day e2 →
       e_time_slot e1 = e_time_slot e2 → e_classroom e1 ≠ e_classroom e2 →
       filter (λ c, clash_kind c = Some KTeacher) (detect tt)
       = [TeacherClash (e_teacher e1) (e_day e1) (e_time_slot e1)
                       [e_subject e1; e_subject e2]]
       ∧ filter (λ c, clash_kind c = Some KClassroom) (detect tt) = []).
Proof.
  split; [apply detect_detect_spec|]. split; [apply detect_filter_key|].
  split; [apply detect_keyed|].
  intros e1 e2 -> Ht Hd Hs Hc.
  unfold detect, group_by. simpl.
  rewrite decide_True by congruence. simpl.
  unfold slot_clashes, group_by. simpl.
  rewrite (decide_True (P := e_teacher e2 = e_teacher e1)) by done.
  rewrite (decide_False (P := e_classroom e2 = e_classroom e1)) by done.
  case_decide; simpl; split; reflexivity.
Qed.

Lemma detect_contract_witness :
  filter (λ c, clash_kind c = Some KTeacher) (detect [clash_math; clash_physics])
  = [TeacherClash "Ann" "Mon" "9:00" ["Math"; "Physics"]]
  ∧ filter (λ c, clash_kind c = Some KClassroom)
           (detect [clash_math; clash_physics]) = [].
Proof.
  apply (proj2 (proj2 (proj2 (detect_contract [clash_math; clash_physics])))
           clash_math clash_physics); [reflexivity..|].
  vm_compute. discriminate.
Defined.

(** C3. The feasibility check: [can_place] answers [True] exactly when
    the teacher, the classroom and the subject's cohort are unoccupied
    at (day, slot) in their schedules and the teacher's availability map
    omits the day or lists the slot under it; whatever it answers, it
    leaves the state as it was. *)
Theorem can_place_contract subject teacher classroom day slot st :
  ((∃ st', can_place subject teacher classroom day slot st = Some (true, st')) ↔
   grid_get (teacher_schedule st) (t_name teacher) day slot = Some false
   ∧ grid_get (classroom_schedule st) classroom day slot = Some false
   ∧ grid_get (cohort_schedule st) (semester_of subject) day slot = Some false
   ∧ (t_availability teacher !! day = None
      ∨ ∃ allowed, t_availability teacher !! day = Some allowed ∧ slot ∈ allowed))
  ∧ (∀ r st', can_place subject teacher classroom day slot st = Some (r, st') →
              st' = st).
Proof.
  split; [|apply can_place_pure].
  rewrite <- is_teacher_available_iff, <- can_place_true. split.
  - intros [st' Hp]. by rewrite <- (can_place_pure _ _ _ _ _ _ _ _ Hp) at 2.
  - eauto.
Qed.

(** C4. Session count bound: in a run over subjects that require a
    non-negative number of sessions, the final [placed] of a subject
    counts the entries its round appended and is at most what the
    subject requires; when it is less, the round appends exactly one
    unplaced-sessions record, with [missing = required - placed] and at
    most 5 suggestions; when it is not, the round appends none.  The
    returned lists are the concatenation of what the rounds append. *)
Theorem session_count_bound lower req g :
  Forall (λ s, 0 ≤ sessions_of s) (subjects req) →
  ∃ outs st,
    generate_trace lower req g
      = Some ((λ o, (o_placed o, o_attempts o)) <$> outs, st)
    ∧ generate lower req g
      = Some (concat (o_entries <$> outs), concat (o_conflicts <$> outs))
    ∧ Forall2 (λ subject o,
        let placed := o_placed o in
        let required := sessions_of subject in
        placed = Z.of_nat (length (o_entries o))
        ∧ Forall (entry_of subject) (o_entries o)
        ∧ placed ≤ required
        ∧ if decide (placed < required) then
            ∃ suggestions,
              o_conflicts o = [Unplaced (semester_of subject) [s_name subject]
                                        (required - placed) suggestions]
              ∧ (length suggestions ≤ 5)%nat
          else o_conflicts o = []) (subjects req) outs.
Proof.
  intros Hpos.
  destruct (generate_run lower req g)
    as (outs & st & Htr & Hgen & _ & _ & Hos & _).
  exists outs, st. split; [done|]. split; [done|].
  eapply Forall2_impl; [apply (Forall2_with_l _ _ _ _ Hos Hpos)|].
  intros s o [(Hlen & Hof & Hp & _ & _ & _ & Hcf) Hn]. simpl in *.
  split; [done|]. split; [done|]. split; [lia|].
  case_decide; [|done].
  destruct Hcf as (sugg & ? & ? & _). by exists sugg.
Qed.

Lemma session_count_bound_witness :
  Forall (λ s, 0 ≤ sessions_of s) (subjects small_request)
  ∧ ∃ outs st,
      generate_trace ascii_lower small_request sample_rng
        = Some ((λ o, (o_placed o, o_attempts o)) <$> outs, st)
      ∧ generate ascii_lower small_request sample_rng
        = Some (concat (o_entries <$> outs), concat (o_conflicts <$> outs))
      ∧ Forall2 (λ subject o,
          let placed := o_placed o in
          let required := sessions_of subject in
          placed = Z.of_nat (length (o_entries o))
          ∧ Forall (entry_of subject) (o_entries o)
          ∧ placed ≤ required
          ∧ if decide (placed < required) then
              ∃ suggestions,
                o_conflicts o = [Unplaced (semester_of subject) [s_name subject]
                                          (required - placed) suggestions]
                ∧ (length suggestions ≤ 5)%nat
            else o_conflicts o = []) (subjects small_request) outs.
Proof.
  assert (Forall (λ s, 0 ≤ sessions_of s) (subjects small_request)) as H
    by (repeat constructor; vm_compute; discriminate).
  split; [exact H|].
  exact (session_count_bound ascii_lower small_request sample_rng H).
Defined.

(** C5. Idempotence of detection: [detect_conflicts] leaves the
    timetable as it is, and a second run on it reports the records of
    the first run, no more and no fewer; the re-detection of an
    updated timetable gives the same answer each time it is asked. *)
Theorem detection_repeatable st tt g g' :
  (∃ st1 st2,
     detect_conflicts st = Some ((), st1)
     ∧ detect_conflicts st1 = Some ((), st2)
     ∧ timetable st1 = timetable st
     ∧ timetable st2 = timetable st
     ∧ conflicts st1 = conflicts st ++ detect (timetable st)
     ∧ conflicts st2 = conflicts st1 ++ detect (timetable st))
  ∧ redetect tt g = Some (detect tt)
  ∧ redetect tt g' = redetect tt g.
Proof.
  split; [|done]. eexists _, _. by split_and!.
Qed.

(** C6 as stated fails: the records of the two reports list their
    subjects in timetable order, so swapping two clashing entries gives
    a record that is not among the records of the other report. *)
Lemma detect_permutation_counterexample :
  [clash_math; clash_physics] ≡ₚ [clash_physics; clash_math]
  ∧ ¬ (detect [clash_math; clash_physics] ≡ₚ detect [clash_physics; clash_math]).
Proof.
  split; [apply Permutation_swap|].
  intros Hp. apply Permutation_singleton_l in Hp. discriminate Hp.
Qed.

(** C6, amended.  Detector symmetry: on two timetables that are
    permutations of each other the detector reports the same clashes,
    up to the order of the records and the order of the subject names
    inside a record. *)
Theorem detect_permutation tt1 tt2 :
  tt1 ≡ₚ tt2 →
  ∃ L, detect tt1 ≡ₚ L ∧ Forall2 same_clash L (detect tt2).
Proof.
  intros Hp. apply (match_by_key clash_key).
  - by intros a b [? _].
  - apply detect_key_NoDup.
  - apply detect_key_NoDup.
  - intros c Hc. by apply (detect_Permutation_elem tt1 tt2).
  - intros c Hc.
    destruct (detect_Permutation_elem tt2 tt1 c) as (c' & Hc' & Hk & Hs);
      [done|done|].
    exists c'. split; [done|]. by split.
Qed.

Lemma detect_permutation_witness :
  [clash_math; clash_physics] ≡ₚ [clash_physics; clash_math]
  ∧ ∃ L, detect [clash_math; clash_physics] ≡ₚ L
         ∧ Forall2 same_clash L (detect [clash_physics; clash_math]).
Proof.
  assert ([clash_math; clash_physics] ≡ₚ [clash_physics; clash_math]) as H
    by apply Permutation_swap.
  split; [exact H|]. exact (detect_permutation _ _ H).
Defined.

(** C7 as stated fails for a subject that asks for no session: nothing
    is missing, so the run reports nothing for it. *)
Lemma unplaceable_without_conflict :
  unplaceable ascii_lower art_request art
  ∧ generate ascii_lower art_request sample_rng = Some ([], []).
Proof.
  split; [|reflexivity].
  right. right. reflexivity.
Qed.

(** C7, amended.  Graceful degradation: every run of [generate]
    returns a timetable and a conflict list, which are the rounds of
    the subjects one after the other.  The round of a subject appends
    as many entries as its final [placed], all of that subject, and one
    unplaced-sessions record for that subject when [placed] stays below
    its requirement, none otherwise.  A subject that no teacher
    teaches, or any subject when the day or slot list is empty, gets no
    entry, and, when it requires at least one session, exactly one
    unplaced-sessions record with all its sessions missing and no
    suggestion; when it requires none, no record. *)
Theorem unplaceable_subject_reported lower req g :
  ∃ outs st,
    generate_trace lower req g
      = Some ((λ o, (o_placed o, o_attempts o)) <$> outs, st)
    ∧ generate lower req g
      = Some (concat (o_entries <$> outs), concat (o_conflicts <$> outs))
    ∧ Forall2 (λ subject o,
        let placed := o_placed o in
        let required := sessions_of subject in
        placed = Z.of_nat (length (o_entries o))
        ∧ Forall (entry_of subject) (o_entries o)
        ∧ (if decide (placed < required) then
             ∃ suggestions,
               o_conflicts o = [Unplaced (semester_of subject) [s_name subject]
                                         (required - placed) suggestions]
               ∧ (length suggestions ≤ 5)%nat
           else o_conflicts o = [])
        ∧ (unplaceable lower req subject →
           placed = 0
           ∧ o_entries o = []
           ∧ o_conflicts o =
               if decide (0 < required)
               then [Unplaced (semester_of subject) [s_name subject] required []]
               else [])) (subjects req) outs.
Proof.
  destruct (generate_run lower req g)
    as (outs & st & Htr & Hgen & _ & _ & Hos & _).
  exists outs, st. split; [done|]. split; [done|].
  eapply Forall2_impl; [exact Hos|].
  intros s o (Hlen & Hof & _ & _ & _ & Hzero & Hcf). simpl.
  split; [done|]. split; [done|]. split.
  - case_decide; [|done]. destruct Hcf as (sugg & ? & ? & _). by exists sugg.
  - intros Hu. specialize (Hzero Hu). rewrite Hzero in *.
    split; [done|].
    split; [destruct (o_entries o); [done|simpl in Hlen; lia]|].
    destruct (decide (0 < sessions_of s)) as [Hn|Hn]; [|done].
    destruct Hcf as (sugg & -> & _ & Hsugg).
    rewrite (Hsugg Hu). do 2 f_equal. lia.
Qed.

Lemma unplaceable_subject_reported_witness :
  unplaceable ascii_lower mixed_request chemistry
  ∧ ∃ tt cs rest,
      generate ascii_lower mixed_request sample_rng = Some (tt, cs)
      ∧ Forall (λ e, e_subject e = "math") tt
      ∧ cs = Unplaced "General" ["Chemistry"] 2 [] :: rest
      ∧ Forall (λ c, conflict_subjects c = ["math"]) rest.
Proof.
  assert (unplaceable ascii_lower mixed_request chemistry) as Hu
    by (right; right; reflexivity).
  split; [exact Hu|].
  destruct (unplaceable_subject_reported ascii_lower mixed_request sample_rng)
    as (outs & st & _ & Hgen & Hos).
  apply Forall2_cons_inv_l in Hos as (o1 & outs1 & Ho1 & Hos & ->).
  apply Forall2_cons_inv_l in Hos as (o2 & outs2 & Ho2 & Hnil & ->).
  apply Forall2_nil_inv_l in Hnil as ->.
  destruct Ho1 as (_ & _ & _ & Ho1). destruct (Ho1 Hu) as (_ & He1 & Hc1).
  destruct Ho2 as (_ & Hof2 & Hc2 & _).
  exists (o_entries o2), (Unplaced "General" ["Chemistry"] 2 [] :: o_conflicts o2),
         (o_conflicts o2).
  split; [|split; [|split; [reflexivity|]]].
  - rewrite Hgen. simpl. by rewrite He1, Hc1, !app_nil_r.
  - eapply Forall_impl; [exact Hof2|]. by intros e [? _].
  - destruct (decide (o_placed o2 < sessions_of math)) as [Hlt|Hge].
    + destruct Hc2 as (sugg & -> & _). by repeat constructor.
    + rewrite Hc2. constructor.
Defined.

(** C8.  The attempt budget: every run returns, and for each subject
    the final attempt counter is at most [n × 300] (and 0 when [n] is
    not positive); the fuel of the model never cuts the loop short; and
    an attempt that commits nothing ends the loop of its subject at
    once, whatever budget is left. *)
Theorem attempts_bounded lower req g :
  (∃ trace st,
     generate_trace lower req g = Some (trace, st)
     ∧ Forall2 (λ subject r,
         let n := sessions_of subject in
         0 ≤ r.2 ∧ (0 ≤ n → r.2 ≤ n * 300) ∧ (n ≤ 0 → r.2 = 0))
         (subjects req) trace)
  ∧ (∀ subject fuel st,
       (Z.to_nat (sessions_of subject * 300) ≤ fuel)%nat →
       place_loop lower req subject fuel 0 0 st
       = place_loop lower req subject (Z.to_nat (sessions_of subject * 300)) 0 0 st)
  ∧ (∀ subject fuel placed attempts_guard st st',
       placed < sessions_of subject →
       attempts_guard < sessions_of subject * 300 →
       attempt lower req subject st = Some (false, st') →
       place_loop lower req subject (S fuel) placed attempts_guard st
       = Some ((placed, attempts_guard + 1), st')).
Proof.
  split; [|split].
  - destruct (generate_run lower req g) as (outs & st & Htr & _ & _ & _ & Hos & _).
    eexists _, st. split; [exact Htr|].
    apply Forall2_fmap_r. eapply Forall2_impl; [exact Hos|].
    intros s o (_ & _ & _ & Ha & _). simpl. lia.
  - intros subject fuel st Hf. apply place_loop_fuel; lia.
  - intros subject fuel placed att st st' Hp Ha Hat. simpl.
    rewrite bool_decide_true by done. by rewrite (bind_Some _ _ _ _ _ Hat).
Qed.

Lemma attempts_bounded_witness :
  let st := init_state orphan_request sample_rng in
  (∃ trace st',
     generate_trace ascii_lower orphan_request sample_rng = Some (trace, st')
     ∧ Forall2 (λ subject r,
         let n := sessions_of subject in
         0 ≤ r.2 ∧ (0 ≤ n → r.2 ≤ n * 300) ∧ (n ≤ 0 → r.2 = 0))
         (subjects orphan_request) trace)
  ∧ place_loop ascii_lower orphan_request chemistry 700 0 0 st
    = place_loop ascii_lower orphan_request chemistry 600 0 0 st
  ∧ place_loop ascii_lower orphan_request chemistry 600 0 0 st
    = Some ((0, 1), st).
Proof.
  intros st.
  destruct (attempts_bounded ascii_lower orphan_request sample_rng)
    as (Hrun & Hfuel & Hstop).
  split; [exact Hrun|]. split.
  - apply (Hfuel chemistry 700%nat st). apply Nat.leb_le. reflexivity.
  - apply (Hstop chemistry 599%nat 0 0 st st); reflexivity.
Defined.

(** C9.  The alternative suggester: on the schedules of a run,
    [suggest_alternatives] returns the first 5 pairs, in the order days
    then slots, at which some teacher of the subject is unoccupied and
    available, some classroom is unoccupied and the subject's cohort is
    unoccupied, fewer when fewer qualify; it changes nothing; and at
    every returned pair [can_place] accepts some teacher of the subject
    and some classroom of the request. *)
Theorem suggest_alternatives_contract lower req subject st :
  wf_state req st → subject ∈ subjects req →
  let found := take 5 (filter (qualifies lower req st subject) (day_slot_pairs req)) in
  suggest_alternatives lower req subject 5 st
    = Some ((λ p, suggestion p.1 p.2) <$> found, st)
  ∧ (length found ≤ 5)%nat
  ∧ ∀ p, p ∈ found →
      ∃ teacher classroom,
        teacher ∈ teachers req ∧ teaches lower subject teacher
        ∧ classroom ∈ classrooms req
        ∧ can_place subject teacher classroom p.1 p.2 st = Some (true, st).
Proof.
  intros Hwf Hsub found. split; [|split].
  - unfold suggest_alternatives.
    rewrite suggest_loop_eq by (done || simpl; lia). done.
  - unfold found. rewrite length_take. lia.
  - intros p Hp. apply subseteq_take, list_elem_of_filter in Hp
      as [(Ht & Hc & Hs) _].
    apply Exists_exists in Ht as (t & Ht & Hteach & Hfree & Hav).
    apply Exists_exists in Hc as (c & Hc & Hcfree).
    exists t, c. split_and!; [done..|]. by apply can_place_true.
Qed.

Lemma suggest_alternatives_contract_witness :
  let st := init_state small_request sample_rng in
  let found := take 5 (filter (qualifies ascii_lower small_request st math)
                              (day_slot_pairs small_request)) in
  suggest_alternatives ascii_lower small_request math 5 st
    = Some ((λ p, suggestion p.1 p.2) <$> found, st)
  ∧ (length found ≤ 5)%nat
  ∧ ∀ p, p ∈ found →
      ∃ teacher classroom,
        teacher ∈ teachers small_request ∧ teaches ascii_lower math teacher
        ∧ classroom ∈ classrooms small_request
        ∧ can_place math teacher classroom p.1 p.2 st = Some (true, st).
Proof.
  apply (suggest_alternatives_contract ascii_lower small_request math).
  - apply init_state_consistent.
  - simpl. left.
Defined.

(** ** What the generator reads of a subject *)

Section SubjectFields.
Variable lower : string → string.
Variable req : Request.
Variables s s' : Subject.
Hypothesis same_name : s_name s = s_name s'.
Hypothesis same_semester : semester_of s = semester_of s'.
Hypothesis same_sessions : sessions_of s = sessions_of s'.

Lemma teaches_fields t : teaches lower s t = teaches lower s' t.
Proof. unfold teaches. by rewrite same_name. Qed.

Lemma can_place_fields t c d sl : can_place s t c d sl = can_place s' t c d sl.
Proof. unfold can_place. by rewrite same_semester. Qed.

Lemma place_entry_fields t c d sl : place_entry s t c d sl = place_entry s' t c d sl.
Proof. unfold place_entry. by rewrite same_semester, same_name. Qed.

Lemma try_classrooms_fields t d sl cs st :
  try_classrooms s t d sl cs st = try_classrooms s' t d sl cs st.
Proof.
  revert st. induction cs as [|c cs IH]; intros st; simpl; [done|].
  rewrite !bind_eq, can_place_fields.
  destruct (can_place s' t c d sl st) as [[[] st1]|]; [|apply IH|done].
  by rewrite place_entry_fields.
Qed.

Lemma try_teachers_fields d sl ts st :
  try_teachers req s d sl ts st = try_teachers req s' d sl ts st.
Proof.
  revert st. induction ts as [|t ts IH]; intros st; simpl; [done|].
  destruct (is_teacher_available t d sl); simpl; [|apply IH].
  rewrite !bind_eq. destruct (free_classrooms req d sl st) as [[free st1]|]; [|done].
  rewrite !bind_eq. destruct (shuffleM free st1) as [[free' st2]|]; [|done].
  rewrite !bind_eq, try_classrooms_fields.
  destruct (try_classrooms s' t d sl free' st2) as [[[] st3]|]; [done|apply IH|done].
Qed.

Lemma try_candidates_fields cands st :
  try_candidates lower req s cands st = try_candidates lower req s' cands st.
Proof.
  revert st. induction cands as [|[[score d] sl] cands IH]; intros st; simpl; [done|].
  rewrite (list_filter_iff (λ t, teaches lower s t) (λ t, teaches lower s' t))
    by (intros t; by rewrite teaches_fields).
  rewrite !bind_eq. destruct (shuffleM _ st) as [[ts st1]|]; [|done].
  rewrite !bind_eq, try_teachers_fields.
  destruct (try_teachers req s' d sl ts st1) as [[[] st2]|]; [done|apply IH|done].
Qed.

Lemma attempt_fields st : attempt lower req s st = attempt lower req s' st.
Proof.
  unfold attempt, candidates. rewrite !bind_eq, same_semester.
  apply try_candidates_fields.
Qed.

Lemma place_loop_fields fuel placed attempts st :
  place_loop lower req s fuel placed attempts st
  = place_loop lower req s' fuel placed attempts st.
Proof.
  revert placed attempts st.
  induction fuel as [|fuel IH]; intros placed attempts st; simpl; [done|].
  rewrite same_sessions. case_bool_decide; [|done].
  rewrite !bind_eq, attempt_fields.
  destruct (attempt lower req s' st) as [[[] st1]|]; [apply IH|done..].
Qed.

Lemma suggest_loop_fields max_suggestions pairs suggestions st :
  suggest_loop lower req s max_suggestions pairs suggestions st
  = suggest_loop lower req s' max_suggestions pairs suggestions st.
Proof.
  revert suggestions st.
  induction pairs as [|[d sl] pairs IH]; intros suggestions st; simpl; [done|].
  assert (available_teachers lower req s d sl = available_teachers lower req s' d sl)
    as -> by (unfold available_teachers, teaches; by rewrite same_name).
  rewrite !bind_eq.
  destruct (available_teachers lower req s' d sl st) as [[ts st1]|]; [|done].
  case_bool_decide; [apply IH|].
  rewrite !bind_eq. destruct (free_classrooms req d sl st1) as [[cs st2]|]; [|done].
  case_bool_decide; [apply IH|].
  rewrite same_semester, !bind_eq.
  destruct (cohort_busy (semester_of s') d sl st2) as [[[] st3]|];
    [apply IH| |done].
  case_bool_decide; [done|apply IH].
Qed.

(** The round of a subject depends on its name, its cohort and its
    required sessions, defaults applied, and on nothing else of it. *)
Lemma schedule_subject_fields st :
  schedule_subject lower req s st = schedule_subject lower req s' st.
Proof.
  unfold schedule_subject. rewrite same_sessions, !bind_eq, place_loop_fields.
  destruct (place_loop lower req s' _ 0 0 st) as [[[placed attempts] st1]|];
    [|done].
  simpl. case_bool_decide; [|done].
  unfold suggest_alternatives.
  rewrite !bind_eq, suggest_loop_fields, same_semester, same_name. done.
Qed.
End SubjectFields.

(** C10.  A subject without ['sessions_per_week'] requires 2 sessions:
    its round in the loop over the subjects is the round of the same
    subject with the value 2 written out. *)
Theorem default_sessions_per_week lower req name semester st :
  let omitted := {| s_name := name; s_semester := semester;
                    s_sessions_per_week := None |} in
  let written := {| s_name := name; s_semester := semester;
                    s_sessions_per_week := Some 2 |} in
  sessions_of omitted = 2
  ∧ schedule_subject lower req omitted st = schedule_subject lower req written st.
Proof. split; [done|]. by apply schedule_subject_fields. Qed.

(** * Further properties of the detector *)

Lemma filter_length_le_1 {A} (P : A → Prop) `{∀ x, Decision (P x)} (l : list A) :
  (length (filter P l) ≤ 1)%nat ↔
  ∀ i j x y, i ≠ j → l !! i = Some x → l !! j = Some y → P x → ¬ P y.
Proof.
  induction l as [|a l IH].
  - split; [|simpl; lia]. intros _ i j x y _ Hi. by rewrite lookup_nil in Hi.
  - destruct (decide (P a)) as [Ha|Ha].
    + rewrite filter_cons_True by done. simpl. split.
      * intros Hlen i j x y Hij Hi Hj Hx Hy.
        assert (filter P l = []) as Hnil
          by (destruct (filter P l); [done|simpl in Hlen; lia]).
        destruct i as [|i], j as [|j]; simpl in *; [done| | |].
        -- eapply filter_nil_not_elem_of; [exact Hnil|exact Hy|].
           by eapply list_elem_of_lookup_2.
        -- eapply filter_nil_not_elem_of; [exact Hnil|exact Hx|].
           by eapply list_elem_of_lookup_2.
        -- eapply filter_nil_not_elem_of; [exact Hnil|exact Hx|].
           by eapply list_elem_of_lookup_2.
      * intros Hpair. rewrite filter_none; [simpl; lia|].
        intros x [i Hi]%list_elem_of_lookup_1 Hx.
        by apply (Hpair 0%nat (S i) a x).
    + rewrite filter_cons_False by done. rewrite IH. split.
      * intros Hpair i j x y Hij Hi Hj Hx Hy.
        destruct i as [|i]; simpl in Hi; [by simplify_eq|].
        destruct j as [|j]; simpl in Hj; [by simplify_eq|].
        apply (Hpair i j x y); [congruence|done..].
      * intros Hpair i j x y Hij Hi Hj. apply (Hpair (S i) (S j)); [congruence|done..].
Qed.

(** The detector reports nothing exactly when no two entries at
    different positions of the timetable share a day and a slot together
    with a teacher, a classroom or a cohort. *)
Theorem detect_nothing_iff tt :
  detect tt = [] ↔
  ∀ i j e1 e2,
    i ≠ j → tt !! i = Some e1 → tt !! j = Some e2 →
    e_day e1 = e_day e2 → e_time_slot e1 = e_time_slot e2 →
    e_teacher e1 ≠ e_teacher e2
    ∧ e_classroom e1 ≠ e_classroom e2
    ∧ cohort_of e1 ≠ cohort_of e2.
Proof.
  rewrite detect_nil_iff. unfold no_double_booking, subgroup. split.
  - intros Hnd i j e1 e2 Hij H1 H2 Hd Hs.
    assert (∀ k, entity k e1 ≠ entity k e2) as Hk.
    { intros k Heq.
      apply (proj1 (filter_length_le_1 _ tt)
               (Hnd k (entity k e1) (e_day e1) (e_time_slot e1)) i j e1 e2);
        by rewrite ?Hd, ?Hs, ?Heq. }
    split; [apply (Hk KTeacher)|]. split; [apply (Hk KClassroom)|apply (Hk KCohort)].
  - intros Hpair k x d s. apply filter_length_le_1.
    intros i j e1 e2 Hij H1 H2 (Hd1 & Hs1 & Hx1) (Hd2 & Hs2 & Hx2).
    destruct (Hpair i j e1 e2) as (Ht & Hc & Hco); [done..|congruence|congruence|].
    destruct k; simpl in *; congruence.
Qed.

(** Every record of the detector lists at least two subjects: those of
    all the entries that occupy the record's entity at its day and slot,
    in timetable order. *)
Theorem detect_record_sound tt c :
  c ∈ detect tt →
  ∃ k x d s,
    c = clash k x d s (e_subject <$> subgroup k x d s tt)
    ∧ (2 ≤ length (conflict_subjects c))%nat
    ∧ ∀ sub, sub ∈ conflict_subjects c ↔
        ∃ e, e ∈ tt ∧ e_subject e = sub ∧ e_day e = d ∧ e_time_slot e = s
             ∧ entity k e = x.
Proof.
  intros (k & x & d & s & -> & Hlen)%detect_elem.
  exists k, x, d, s. split; [done|].
  rewrite conflict_subjects_clash, length_fmap. split; [lia|].
  intros sub. rewrite list_elem_of_fmap. unfold subgroup. split.
  - intros (e & -> & (Hf & He)%list_elem_of_filter). exists e. tauto.
  - intros (e & He & <- & Hd & Hs & Hx). exists e. split; [done|].
    apply list_elem_of_filter. tauto.
Qed.

Lemma detect_record_sound_witness :
  ∃ k x d s,
    TeacherClash "Ann" "Mon" "9:00" ["Math"; "Physics"]
    = clash k x d s (e_subject <$> subgroup k x d s [clash_math; clash_physics])
    ∧ (2 ≤ length (conflict_subjects
                     (TeacherClash "Ann" "Mon" "9:00" ["Math"; "Physics"])))%nat
    ∧ ∀ sub, sub ∈ conflict_subjects
                     (TeacherClash "Ann" "Mon" "9:00" ["Math"; "Physics"]) ↔
        ∃ e, e ∈ [clash_math; clash_physics] ∧ e_subject e = sub
             ∧ e_day e = d ∧ e_time_slot e = s ∧ entity k e = x.
Proof.
  apply (detect_record_sound [clash_math; clash_physics]).
  vm_compute. left.
Defined.

(** Two entries at different positions that share a day, a slot and a
    teacher (or a classroom, or a cohort) are reported: the detector
    emits a record of that kind for that entity, day and slot, and the
    record lists the subjects of both. *)
Theorem detect_pair_reported tt k i j e1 e2 :
  i ≠ j → tt !! i = Some e1 → tt !! j = Some e2 →
  e_day e1 = e_day e2 → e_time_slot e1 = e_time_slot e2 →
  entity k e1 = entity k e2 →
  ∃ c, c ∈ detect tt
       ∧ clash_key c = Some (k, entity k e1, e_day e1, e_time_slot e1)
       ∧ e_subject e1 ∈ conflict_subjects c
       ∧ e_subject e2 ∈ conflict_subjects c.
Proof.
  intros Hij H1 H2 Hd Hs Hx.
  set (G := subgroup k (entity k e1) (e_day e1) (e_time_slot e1) tt).
  assert (e1 ∈ G) as Hin1.
  { apply list_elem_of_filter. split; [done|by eapply list_elem_of_lookup_2]. }
  assert (e2 ∈ G) as Hin2.
  { apply list_elem_of_filter. split; [by rewrite Hd, Hs, Hx|].
    by eapply list_elem_of_lookup_2. }
  assert (1 < length G)%nat as Hlen.
  { destruct (decide (1 < length G)%nat) as [|Hle]; [done|]. exfalso.
    assert (length G ≤ 1)%nat as Hle' by lia. unfold G, subgroup in Hle'.
    apply (proj1 (filter_length_le_1 _ tt) Hle' i j e1 e2);
      by rewrite ?Hd, ?Hs, ?Hx. }
  exists (clash k (entity k e1) (e_day e1) (e_time_slot e1) (e_subject <$> G)).
  split; [apply detect_elem; by exists k, (entity k e1), (e_day e1), (e_time_slot e1)|].
  rewrite clash_key_clash, conflict_subjects_clash.
  split; [done|]. split; by apply list_elem_of_fmap_2.
Qed.

Lemma detect_pair_reported_witness :
  ∃ c, c ∈ detect [clash_math; clash_physics]
       ∧ clash_key c = Some (KTeacher, "Ann", "Mon", "9:00")
       ∧ "Math" ∈ conflict_subjects c
       ∧ "Physics" ∈ conflict_subjects c.
Proof.
  apply (detect_pair_reported [clash_math; clash_physics] KTeacher 0 1
           clash_math clash_physics); (discriminate || reflexivity).
Defined.

Lemma filter_all {A} (P : A → Prop) `{∀ x, Decision (P x)} (l : list A) :
  (∀ x, x ∈ l → P x) → filter P l = l.
Proof.
  induction l as [|a l IH]; intros Hl; [done|].
  rewrite filter_cons_True by (apply Hl; by left).
  f_equal. apply IH. intros x ?. apply Hl. by right.
Qed.

Lemma first_occurrences_app {K} `{EqDecision K} (l1 l2 : list K) :
  first_occurrences (l1 ++ l2)
  = first_occurrences l1 ++ filter (λ k, k ∉ l1) (first_occurrences l2).
Proof.
  induction l1 as [|a l1 IH].
  - simpl. symmetry. apply filter_all. intros k _. apply not_elem_of_nil.
  - change (first_occurrences ((a :: l1) ++ l2))
      with (a :: filter (λ k, k ≠ a) (first_occurrences (l1 ++ l2))).
    rewrite IH, filter_app, list_filter_filter. simpl. do 2 f_equal.
    apply list_filter_iff. intros k. rewrite not_elem_of_cons. tauto.
Qed.

Lemma flat_map_ext_elem {A B} (f g : A → list B) (l : list A) :
  (∀ x, x ∈ l → f x = g x) → flat_map f l = flat_map g l.
Proof.
  induction l as [|a l IH]; intros Hfg; simpl; [done|].
  rewrite Hfg by (by left). f_equal. apply IH. intros x ?. apply Hfg. by right.
Qed.

(** Detection is local to the (day, slot) pairs: when two timetables
    have no (day, slot) in common, the report on their concatenation is
    the report on the first followed by the report on the second. *)
Theorem detect_app_disjoint tt1 tt2 :
  (∀ e1 e2, e1 ∈ tt1 → e2 ∈ tt2 →
            (e_day e1, e_time_slot e1) ≠ (e_day e2, e_time_slot e2)) →
  detect (tt1 ++ tt2) = detect tt1 ++ detect tt2.
Proof.
  intros Hdisj. rewrite !detect_detect_spec. unfold detect_spec.
  rewrite fmap_app, first_occurrences_app.
  rewrite filter_all.
  2:{ intros k Hk Hk1. rewrite first_occurrences_elem in Hk.
      apply list_elem_of_fmap in Hk as (e2 & -> & He2).
      apply list_elem_of_fmap in Hk1 as (e1 & Heq & He1).
      by apply (Hdisj e1 e2). }
  rewrite flat_map_app. f_equal.
  - apply flat_map_ext_elem. intros [d s] Hk. rewrite first_occurrences_elem in Hk.
    rewrite filter_app.
    rewrite (filter_none _ tt2); [by rewrite app_nil_r|].
    intros e2 He2 Heq. apply list_elem_of_fmap in Hk as (e1 & Hk & He1).
    apply (Hdisj e1 e2); [done..|congruence].
  - apply flat_map_ext_elem. intros [d s] Hk. rewrite first_occurrences_elem in Hk.
    rewrite filter_app.
    rewrite (filter_none _ tt1); [done|].
    intros e1 He1 Heq. apply list_elem_of_fmap in Hk as (e2 & Hk & He2).
    apply (Hdisj e1 e2); [done..|congruence].
Qed.

Lemma detect_app_disjoint_witness :
  detect ([clash_math; clash_physics]
          ++ [{| e_day := "Tue"; e_time_slot := "9:00"; e_subject := "Art";
                 e_teacher := "Ann"; e_classroom := "R1"; e_semester := None |}])
  = detect [clash_math; clash_physics]
    ++ detect [{| e_day := "Tue"; e_time_slot := "9:00"; e_subject := "Art";
                  e_teacher := "Ann"; e_classroom := "R1"; e_semester := None |}].
Proof.
  apply detect_app_disjoint. intros e1 e2 He1 He2.
  apply list_elem_of_singleton in He2 as ->.
  apply elem_of_cons in He1 as [->|He1];
    [|apply list_elem_of_singleton in He1 as ->]; discriminate.
Defined.

(** * Further properties of the generator *)

Lemma load_incr_get load sem d c d' :
  load_get (load_incr load sem d) c d'
  = load_get load c d' + (if decide (c = sem ∧ d' = d) then 1 else 0).
Proof.
  unfold load_get, load_incr.
  destruct (decide (c = sem)) as [->|Hc].
  - rewrite lookup_insert_eq. simpl.
    destruct (decide (d' = d)) as [->|Hd].
    + rewrite lookup_insert_eq, decide_True by done. done.
    + rewrite lookup_insert_ne, decide_False by naive_solver. lia.
  - rewrite lookup_insert_ne, decide_False by naive_solver. lia.
Qed.

Lemma grows_refl st : grows st st.
Proof. by intros k x d s. Qed.

Lemma grows_trans st1 st2 st3 : grows st1 st2 → grows st2 st3 → grows st1 st3.
Proof. intros H12 H23 k x d s Hc. by apply H23, H12. Qed.

Lemma same_schedule_sym st st' : same_schedule st st' → same_schedule st' st.
Proof. intros (?&?&?&?&?&?). by repeat split. Qed.

Lemma same_schedule_grows st st' : same_schedule st st' → grows st st'.
Proof. intros Hs k x d s. by rewrite (same_schedule_of _ _ k Hs). Qed.

Lemma same_schedule_feasible st st' subject t c d s :
  same_schedule st st' → feasible st subject t c d s → feasible st' subject t c d s.
Proof. intros (_&_&Ht&Hc&Hs&_). unfold feasible. by rewrite Ht, Hc, Hs. Qed.

Section AuditFacts.
Variable lower : string → string.
Variable req : Request.

Lemma same_schedule_audited st st' :
  same_schedule st st' → audited lower req st → audited lower req st'.
Proof.
  intros Hs (Hl & He & Hload & Hq). pose proof Hs as (Htt & Hcf & _ & _ & _ & Hld).
  split_and!.
  - by rewrite Htt.
  - intros k x d s. rewrite (same_schedule_of _ _ k Hs), Htt. apply He.
  - intros c d. rewrite Hld, Htt. apply Hload.
  - by rewrite Hcf.
Qed.

Lemma same_schedule_blocked subject st st' :
  same_schedule st st' → blocked lower req subject st → blocked lower req subject st'.
Proof.
  intros (_&_&Ht&Hc&Hs&_) Hb d s t c ??????. rewrite Ht, Hc, Hs. by apply Hb.
Qed.

Lemma grows_blocked subject st st' :
  grows st st' → blocked lower req subject st → blocked lower req subject st'.
Proof.
  intros Hg Hb d s t c ??????.
  destruct (Hb d s t c) as [Hx|[Hx|Hx]]; [done..| | |].
  - left. by apply (Hg KTeacher).
  - right. left. by apply (Hg KClassroom).
  - right. right. by apply (Hg KCohort).
Qed.

(** What [place_entry] does to the state. *)
Lemma place_entry_inv subject teacher classroom day slot st st' :
  place_entry subject teacher classroom day slot st = Some ((), st') →
  timetable st' = timetable st
                  ++ [{| e_day := day; e_time_slot := slot;
                         e_subject := s_name subject; e_teacher := t_name teacher;
                         e_classroom := classroom;
                         e_semester := Some (semester_of subject) |}]
  ∧ conflicts st' = conflicts st
  ∧ cohort_load st' = load_incr (cohort_load st) (semester_of subject) day
  ∧ grid_mark (teacher_schedule st) (t_name teacher) day slot
    = Some (teacher_schedule st')
  ∧ grid_mark (classroom_schedule st) classroom day slot
    = Some (classroom_schedule st')
  ∧ grid_mark (cohort_schedule st) (semester_of subject) day slot
    = Some (cohort_schedule st').
Proof.
  unfold place_entry.
  destruct (grid_mark (teacher_schedule st) _ _ _) as [ts|]; [|done].
  destruct (grid_mark (classroom_schedule st) _ _ _) as [cs|]; [|done].
  destruct (grid_mark (cohort_schedule st) _ _ _) as [co|]; [|done].
  simpl. by intros [= <-].
Qed.

Lemma committed_step subject st st' :
  subject ∈ subjects req → committed lower req subject st st' →
  (audited lower req st → audited lower req st') ∧ grows st st'
  ∧ conflicts st' = conflicts st.
Proof.
  intros Hsub (st0 & d & s & t & c & Hs0 & Hd & Hs & Ht & Hteach & Hav & Hc & _ & Hp).
  apply place_entry_inv in Hp as (Htt & Hcf & Hld & Hmt & Hmc & Hmo).
  set (e := {| e_day := d; e_time_slot := s; e_subject := s_name subject;
               e_teacher := t_name t; e_classroom := c;
               e_semester := Some (semester_of subject) |}) in *.
  assert (∀ k, grid_mark (schedule_of k st0) (entity k e) d s
               = Some (schedule_of k st')) as Hmark by (by intros []).
  split_and!.
  - intros Ha. apply (same_schedule_audited _ _ Hs0) in Ha as (Hl & He & Hload & Hq).
    split_and!.
    + rewrite Htt. apply Forall_app. split; [done|]. apply Forall_singleton.
      exists subject, t. by split_and!.
    + intros k x d' s' Hcell. rewrite (grid_mark_get _ _ _ _ _ _ _ _ (Hmark k)) in Hcell.
      rewrite Htt. case_decide as Heq.
      * destruct Heq as (-> & -> & ->). exists e. split; [|done].
        apply elem_of_app. right. by left.
      * destruct (He k x d' s' Hcell) as (e' & He' & ?). exists e'.
        split; [|done]. apply elem_of_app. by left.
    + intros c' d'. rewrite Hld, load_incr_get, Htt, filter_app, length_app, Hload.
      destruct (decide (c' = semester_of subject ∧ d' = d)) as [[-> ->]|Hne].
      * rewrite filter_cons_True by done. simpl. lia.
      * rewrite filter_cons_False by (simpl; naive_solver). simpl. lia.
    + by rewrite Hcf.
  - eapply grows_trans; [by apply same_schedule_grows|].
    intros k x d' s' Hcell. rewrite (grid_mark_get _ _ _ _ _ _ _ _ (Hmark k)).
    by case_decide.
  - destruct Hs0 as (_ & Hcf0 & _). congruence.
Qed.

Lemma same_schedule_wf st st' :
  same_schedule st st' → wf_state req st → wf_state req st'.
Proof. intros Hs Hwf k. rewrite (same_schedule_of _ _ k Hs). apply Hwf. Qed.

(** How the search over the classrooms ends. *)
Lemma try_classrooms_inv subject teacher d s cs st b st' :
  try_classrooms subject teacher d s cs st = Some (b, st') →
  if b then
    ∃ c, c ∈ cs
         ∧ can_place subject teacher c d s st = Some (true, st)
         ∧ place_entry subject teacher c d s st = Some ((), st')
  else st' = st ∧ ∀ c, c ∈ cs → ¬ feasible st subject teacher c d s.
Proof.
  induction cs as [|c cs IH]; simpl.
  - intros [= <- <-]. split; [done|]. intros c Hc. by apply elem_of_nil in Hc.
  - intros (ok & st1 & Hcp & Hrun)%bind_inv.
    pose proof (can_place_pure _ _ _ _ _ _ _ _ Hcp) as ->.
    destruct ok.
    + apply bind_inv in Hrun as ([] & st2 & Hpe & [= <- <-]).
      exists c. split; [by left|done].
    + specialize (IH Hrun). destruct b.
      * destruct IH as (c' & Hc' & ?). exists c'. split; [by right|done].
      * destruct IH as [-> IH]. split; [done|].
        intros c' [->|Hc']%elem_of_cons; [|by apply IH].
        intros Hf%can_place_true. congruence.
Qed.

(** How the search over the teachers ends. *)
Lemma try_teachers_inv subject d s ts st b st' :
  wf_state req st → d ∈ days req → s ∈ time_slots req →
  try_teachers req subject d s ts st = Some (b, st') →
  if b then
    ∃ st0 t c,
      same_schedule st st0 ∧ t ∈ ts ∧ is_teacher_available t d s
      ∧ c ∈ classrooms req
      ∧ can_place subject t c d s st0 = Some (true, st0)
      ∧ place_entry subject t c d s st0 = Some ((), st')
  else
    same_schedule st st'
    ∧ ∀ t c, t ∈ ts → c ∈ classrooms req → ¬ feasible st subject t c d s.
Proof.
  intros Hwf Hd Hs. revert st Hwf. induction ts as [|t ts IH]; intros st Hwf; simpl.
  - intros [= <- <-]. split; [apply same_schedule_refl|].
    intros t c Ht. by apply elem_of_nil in Ht.
  - destruct (is_teacher_available t d s) eqn:Hav; simpl.
    2:{ intros Hrun. specialize (IH st Hwf Hrun). destruct b.
        - destruct IH as (st0 & t' & c & ? & ? & ?). exists st0, t', c.
          split; [done|]. split; [by right|done].
        - destruct IH as [? IH]. split; [done|].
          intros t' c [->|Ht']%elem_of_cons Hc; [|by apply IH].
          intros (_ & _ & _ & Hav'). by rewrite Hav in Hav'. }
    rewrite (bind_Some _ _ _ _ _ (free_classrooms_eq _ _ _ _ Hwf Hd Hs)).
    destruct (shuffleM_ok
      (filter (λ c, grid_get (classroom_schedule st) c d s = Some false)
              (classrooms req)) st) as (free & st1 & Hsh & Hperm & Hs1).
    rewrite (bind_Some _ _ _ _ _ Hsh).
    intros (b1 & st2 & Htry & Hrun)%bind_inv.
    apply try_classrooms_inv in Htry. destruct b1.
    + injection Hrun as <- <-. destruct Htry as (c & Hc & Hcp & Hpe).
      exists st1, t, c. split; [done|]. split; [by left|].
      split; [by rewrite Hav|]. split; [|done].
      rewrite Hperm in Hc. by apply list_elem_of_filter in Hc as [_ ?].
    + destruct Htry as [-> Hno].
      specialize (IH st1 (same_schedule_wf _ _ Hs1 Hwf) Hrun). destruct b.
      * destruct IH as (st0 & t' & c & Hs0 & ? & ?). exists st0, t', c.
        split; [by eapply same_schedule_trans|]. split; [by right|done].
      * destruct IH as [Hs' IH]. split; [by eapply same_schedule_trans|].
        intros t' c [->|Ht']%elem_of_cons Hc Hf.
        -- apply (Hno c); [|by apply (same_schedule_feasible st)].
           rewrite Hperm. apply list_elem_of_filter. split; [apply Hf|done].
        -- apply (IH t' c Ht' Hc). by apply (same_schedule_feasible st).
Qed.

(** How one attempt ends: it commits, or nothing fits. *)
Lemma try_candidates_inv subject cands st b st' :
  wf_state req st →
  (∀ c, c ∈ cands → (c.1.2, c.2) ∈ day_slot_pairs req) →
  try_candidates lower req subject cands st = Some (b, st') →
  if b then committed lower req subject st st'
  else
    same_schedule st st'
    ∧ ∀ cand t c, cand ∈ cands → t ∈ teachers req → teaches lower subject t →
                  c ∈ classrooms req →
                  ¬ feasible st subject t c cand.1.2 cand.2.
Proof.
  revert st. induction cands as [|[[score d] s] cands IH]; intros st Hwf Hcands; simpl.
  - intros [= <- <-]. split; [apply same_schedule_refl|].
    intros cand t c Hc. by apply elem_of_nil in Hc.
  - destruct (proj1 (day_slot_pairs_elem req d s) (Hcands _ ltac:(by left)))
      as [Hd Hs].
    destruct (shuffleM_ok (filter (λ t, teaches lower subject t) (teachers req)) st)
      as (ts & st1 & Hsh & Hperm & Hs1).
    rewrite (bind_Some _ _ _ _ _ Hsh).
    intros (b1 & st2 & Htry & Hrun)%bind_inv.
    apply try_teachers_inv in Htry;
      [|by apply (same_schedule_wf st)|done..].
    destruct b1.
    + injection Hrun as <- <-. destruct Htry as (st0 & t & c & Hs0 & Ht & Hav & Hc & Hcp & Hpe).
      rewrite Hperm in Ht. apply list_elem_of_filter in Ht as [Hteach Ht].
      exists st0, d, s, t, c. split_and!; try done.
      by eapply same_schedule_trans.
    + destruct Htry as [Hs2 Hno].
      assert (same_schedule st st2) as Hs02 by (by eapply same_schedule_trans).
      specialize (IH st2 (same_schedule_wf _ _ Hs02 Hwf)
                    (λ c Hc, Hcands c ltac:(by right)) Hrun).
      destruct b.
      * destruct IH as (st0 & d' & s' & t & c & Hs0 & ?).
        exists st0, d', s', t, c. split; [by eapply same_schedule_trans|done].
      * destruct IH as [Hs' IH]. split; [by eapply same_schedule_trans|].
        intros cand t c [->|Hcand]%elem_of_cons Ht Hteach Hc Hf; simpl in *.
        -- apply (Hno t c); [|done|by apply (same_schedule_feasible st)].
           rewrite Hperm. by apply list_elem_of_filter.
        -- apply (IH cand t c); try done. by apply (same_schedule_feasible st).
Qed.

Lemma attempt_inv subject st b st' :
  wf_state req st → subject ∈ subjects req →
  attempt lower req subject st = Some (b, st') →
  if b then committed lower req subject st st'
  else same_schedule st st' ∧ blocked lower req subject st.
Proof.
  intros Hwf Hsub. unfold attempt, candidates. rewrite bind_eq.
  set (cands := sort_by_score _). intros Hrun.
  apply try_candidates_inv in Hrun; [|done|].
  2:{ intros c. unfold cands. rewrite sort_by_score_Permutation.
      intros ([d s] & -> & Hds)%list_elem_of_fmap. done. }
  destruct b; [done|]. destruct Hrun as [Hs Hno]. split; [done|].
  intros d s t c Hd Hsl Ht Hteach Hav Hc.
  destruct (Hwf KTeacher (t_name t) d s) as [b1 Hb1];
    [by apply list_elem_of_fmap_2|done..|].
  destruct (Hwf KClassroom c d s) as [b2 Hb2]; [done..|].
  destruct (Hwf KCohort (semester_of subject) d s) as [b3 Hb3];
    [by apply semester_in_cohort_keys|done..|].
  simpl in *. rewrite Hb1, Hb2, Hb3.
  destruct b1; [by left|]. destruct b2; [by right; left|].
  destruct b3; [by right; right|]. exfalso.
  apply (Hno (_rank_slots (cohort_load st) d s (semester_of subject), d, s) t c);
    try done.
  unfold cands. rewrite sort_by_score_Permutation.
  apply (list_elem_of_fmap_2'
           (λ '(day, slot), (_rank_slots (cohort_load st) day slot
                                         (semester_of subject), day, slot))
           _ (d, s)); [by apply day_slot_pairs_elem|done].
Qed.

Lemma blocked_not_qualifies subject st p :
  blocked lower req subject st → p ∈ day_slot_pairs req →
  ¬ qualifies lower req st subject p.
Proof.
  intros Hb Hp (Ht & Hc & Hs). destruct p as [d s].
  apply day_slot_pairs_elem in Hp as [Hd Hsl].
  apply Exists_exists in Ht as (t & Ht & Hteach & Hfree & Hav).
  apply Exists_exists in Hc as (c & Hc & Hcfree). simpl in *.
  destruct (Hb d s t c) as [Hx|[Hx|Hx]]; try done; congruence.
Qed.

(** How the placement loop of a subject ends: every attempt committed
    and the guard became false, or the last attempt found nothing to
    commit. *)
Lemma place_loop_inv subject fuel placed attempts st p a st' :
  consistent req st → subject ∈ subjects req →
  place_loop lower req subject fuel placed attempts st = Some ((p, a), st') →
  (audited lower req st → audited lower req st')
  ∧ grows st st'
  ∧ ((a - attempts = p - placed
      ∧ ((Z.to_nat (sessions_of subject * 300 - attempts) ≤ fuel)%nat →
         ¬ (p < sessions_of subject ∧ a < sessions_of subject * 300)))
     ∨ (a - attempts = p - placed + 1
        ∧ p < sessions_of subject
        ∧ blocked lower req subject st')).
Proof.
  intros Hc Hsub. revert placed attempts st Hc.
  induction fuel as [|fuel IH]; intros placed attempts st Hc; simpl.
  { intros [= <- <- <-]. split; [done|]. split; [apply grows_refl|].
    left. split; [lia|]. lia. }
  case_bool_decide as Hguard.
  2:{ intros [= <- <- <-]. split; [done|]. split; [apply grows_refl|].
      left. split; [lia|]. tauto. }
  intros (b & st1 & Hat & Hrun)%bind_inv.
  destruct (attempt_ok lower req subject st Hc Hsub) as (b' & st1' & Hat' & (Hc1 & _) & _).
  rewrite Hat in Hat'. injection Hat' as <- <-.
  apply attempt_inv in Hat; [|apply Hc|done].
  destruct b.
  - destruct (committed_step subject st st1 Hsub Hat) as (Haud & Hg & _).
    destruct (IH _ _ _ Hc1 Hrun) as (Haud' & Hg' & Hend).
    split; [tauto|]. split; [by eapply grows_trans|].
    destruct Hend as [[Heq Hfuel]|(Heq & Hp & Hb)].
    + left. split; [lia|]. intros Hf. apply Hfuel. lia.
    + right. split; [lia|done].
  - injection Hrun as <- <- <-. destruct Hat as [Hs Hb].
    split; [by apply same_schedule_audited|].
    split; [by apply same_schedule_grows|].
    right. split; [lia|]. split; [lia|]. by eapply same_schedule_blocked.
Qed.

(** How the round of a subject ends. *)
Lemma schedule_subject_inv subject st p a st' :
  consistent req st → subject ∈ subjects req →
  schedule_subject lower req subject st = Some ((p, a), st') →
  consistent req st'
  ∧ (audited lower req st → audited lower req st')
  ∧ grows st st'
  ∧ (p < sessions_of subject → blocked lower req subject st')
  ∧ a ≤ Z.max 0 (sessions_of subject)
  ∧ (a = p ∨ (a = p + 1 ∧ p < sessions_of subject)).
Proof.
  intros Hc Hsub Hrun.
  destruct (schedule_subject_ok lower req subject st Hc Hsub)
    as (o & st'' & Hrun' & Hc' & _).
  rewrite Hrun in Hrun'. injection Hrun' as _ _ <-.
  split; [done|]. clear o Hc'.
  unfold schedule_subject in Hrun.
  apply bind_inv in Hrun as ([p0 a0] & st1 & Hloop & Hrun).
  destruct (place_loop_ok lower req subject
              (Z.to_nat (sessions_of subject * 300)) 0 0 st Hc Hsub)
    as (p' & a' & st1' & new & Hloop' & Hc1 & _ & _ & _ & Hlen & Hp & _).
  rewrite Hloop in Hloop'. injection Hloop' as <- <- <-.
  apply place_loop_inv in Hloop as (Haud & Hg & Hend); [|done..].
  assert (0 ≤ p0) as Hp0 by lia.
  assert (p0 < sessions_of subject → a0 = p0 + 1 ∧ blocked lower req subject st1)
    as Hshort.
  { intros Hlt. destruct Hend as [[Heq Hfuel]|(Heq & _ & Hb)]; [|split; [lia|done]].
    exfalso. apply Hfuel; lia. }
  simpl in Hrun. case_bool_decide as Hlt.
  - destruct (Hshort Hlt) as [-> Hb].
    unfold suggest_alternatives in Hrun.
    rewrite bind_eq, (bind_Some _ _ _ _ _
      (suggest_loop_eq lower req subject 5 _ [] st1 (proj1 Hc1) Hsub
         (reflexivity _) ltac:(simpl; lia))) in Hrun.
    rewrite (filter_none (qualifies lower req st1 subject)) in Hrun
      by (intros q Hq; by apply blocked_not_qualifies).
    simpl in Hrun. injection Hrun as <- <- <-.
    split_and!.
    + intros Ha. destruct (Haud Ha) as (Hl & He & Hload & Hq).
      split_and!; try done. simpl. apply Forall_app. split; [done|].
      by apply Forall_singleton.
    + intros k x d s Hcell. specialize (Hg k x d s Hcell). by destruct k.
    + intros _. exact Hb.
    + lia.
    + right. split; [done|lia].
  - injection Hrun as <- <- <-.
    split_and!; try done; [lia|].
    destruct Hend as [[Heq _]|(Heq & Hp' & _)]; [left; lia|lia].
Qed.

Lemma forM_schedule_inv subs st trace st' :
  consistent req st → subs ⊆ subjects req →
  forM (schedule_subject lower req) subs st = Some (trace, st') →
  consistent req st'
  ∧ (audited lower req st → audited lower req st')
  ∧ grows st st'
  ∧ Forall2 (λ subject r,
      (r.1 < sessions_of subject → blocked lower req subject st')
      ∧ r.2 ≤ Z.max 0 (sessions_of subject)
      ∧ (r.2 = r.1 ∨ (r.2 = r.1 + 1 ∧ r.1 < sessions_of subject))) subs trace.
Proof.
  revert st trace. induction subs as [|subject subs IH]; intros st trace Hc Hsubs; simpl.
  - intros [= <- <-]. split_and!; [done|done|apply grows_refl|constructor].
  - intros ([p a] & st1 & Hs & Hrun)%bind_inv.
    apply bind_inv in Hrun as (rest & st2 & Hf & [= <- <-]).
    apply schedule_subject_inv in Hs as (Hc1 & Haud1 & Hg1 & Hb1 & Ha1 & Hpa);
      [|done|apply Hsubs; by left].
    apply IH in Hf as (Hc2 & Haud2 & Hg2 & Hrest);
      [|done|intros s' ?; apply Hsubs; by right].
    split_and!; [done|tauto|by eapply grows_trans|].
    constructor; [|done]. simpl. split_and!; [|done..].
    intros Hlt. apply (grows_blocked subject st1 st2 Hg2), Hb1, Hlt.
Qed.

Lemma fresh_grid_not_marked keys ds slots k d s :
  grid_get (fresh_grid keys ds slots) k d s ≠ Some true.
Proof.
  unfold grid_get, fresh_grid, fresh_days, fresh_slots.
  rewrite foldl_insert_lookup. case_decide; [|by rewrite lookup_empty]. simpl.
  rewrite foldl_insert_lookup. case_decide; [|by rewrite lookup_empty]. simpl.
  rewrite foldl_insert_lookup. case_decide; [done|by rewrite lookup_empty].
Qed.

Lemma init_state_audited g : audited lower req (init_state req g).
Proof.
  split_and!; [constructor| | |constructor].
  - intros k x d s Hcell. exfalso.
    destruct k; simpl in Hcell; by eapply fresh_grid_not_marked.
  - intros c d. done.
Qed.

(** A generation run, audited: the state [generate] ends in is
    consistent, every entry is made of the request, the schedules and
    the load counters say what the timetable says, no record carries a
    suggestion, and nothing fits a subject that stays short. *)
Lemma generate_audit g :
  ∃ trace st,
    generate_trace lower req g = Some (trace, st)
    ∧ generate lower req g = Some (timetable st, conflicts st)
    ∧ consistent req st
    ∧ audited lower req st
    ∧ Forall2 (λ subject r,
        (r.1 < sessions_of subject → blocked lower req subject st)
        ∧ r.2 ≤ Z.max 0 (sessions_of subject)
        ∧ (r.2 = r.1 ∨ (r.2 = r.1 + 1 ∧ r.1 < sessions_of subject)))
        (subjects req) trace.
Proof.
  destruct (generate_run lower req g) as (outs & st & Htr & Hgen & _).
  unfold generate_trace in Htr.
  apply bind_inv in Htr as (trace & st1 & Hf & Hrun).
  apply bind_inv in Hrun as ([] & st2 & Hdet & [= Htrace <-]).
  pose proof Hf as Hf'.
  apply forM_schedule_inv in Hf' as (Hc & Haud & _ & Hall);
    [|apply init_state_consistent|done].
  specialize (Haud (init_state_audited g)).
  assert (detect (timetable st1) = []) as Hnil by apply detect_nil_iff, Hc.
  unfold detect_conflicts in Hdet. rewrite Hnil, app_nil_r in Hdet.
  injection Hdet as <-.
  exists trace, {| timetable := timetable st1; conflicts := conflicts st1;
                   teacher_schedule := teacher_schedule st1;
                   classroom_schedule := classroom_schedule st1;
                   cohort_schedule := cohort_schedule st1;
                   cohort_load := cohort_load st1; rng := rng st1 |}.
  split.
  { unfold generate_trace. rewrite (bind_Some _ _ _ _ _ Hf).
    unfold detect_conflicts. msimpl. by rewrite Hnil, app_nil_r. }
  split.
  { unfold generate, generate_trace. rewrite (bind_Some _ _ _ _ _ Hf).
    unfold detect_conflicts. msimpl. by rewrite Hnil, app_nil_r. }
  split; [by apply consistent_conflicts|]. split; [exact Haud|exact Hall].
Qed.
End AuditFacts.

(** Every entry [generate] returns is made of the request: its subject
    is a subject of the request, in that subject's cohort; its teacher
    is a teacher of the request who teaches the subject and whose
    availability admits the entry's day and slot; its classroom, day
    and slot are those of the request. *)
Theorem generated_entries_legit lower req g :
  ∃ tt cs,
    generate lower req g = Some (tt, cs)
    ∧ ∀ e, e ∈ tt →
        ∃ subject teacher,
          subject ∈ subjects req ∧ teacher ∈ teachers req
          ∧ e_subject e = s_name subject
          ∧ e_semester e = Some (semester_of subject)
          ∧ e_teacher e = t_name teacher
          ∧ teaches lower subject teacher
          ∧ is_teacher_available teacher (e_day e) (e_time_slot e)
          ∧ e_classroom e ∈ classrooms req
          ∧ e_day e ∈ days req
          ∧ e_time_slot e ∈ time_slots req.
Proof.
  destruct (generate_audit lower req g) as (trace & st & _ & Hgen & _ & (Hl & _) & _).
  exists (timetable st), (conflicts st). split; [done|].
  intros e He. by apply (proj1 (Forall_forall _ _) Hl e He).
Qed.

(** At the end of a run the three schedules say what the timetable
    says: a cell of a teacher, classroom or cohort of the request is
    marked exactly when an entry occupies it, and unmarked otherwise. *)
Theorem schedules_mirror_timetable lower req g :
  ∃ trace st,
    generate_trace lower req g = Some (trace, st)
    ∧ ∀ k x d s,
        x ∈ resource_keys req k → d ∈ days req → s ∈ time_slots req →
        grid_get (schedule_of k st) x d s
        = Some (bool_decide (Exists (λ e, entity k e = x ∧ e_day e = d
                                          ∧ e_time_slot e = s) (timetable st))).
Proof.
  destruct (generate_audit lower req g)
    as (trace & st & Htr & _ & (Hwf & Hbk & _) & (_ & Hex & _) & _).
  exists trace, st. split; [done|]. intros k x d s Hx Hd Hs.
  destruct (Hwf k x d s Hx Hd Hs) as [[] Hb]; rewrite Hb; f_equal; symmetry.
  - apply bool_decide_eq_true, Exists_exists.
    destruct (Hex k x d s Hb) as (e & ? & ?). by exists e.
  - apply bool_decide_eq_false. intros (e & He & <- & <- & <-)%Exists_exists.
    rewrite (Hbk k e He) in Hb. done.
Qed.

Lemma schedules_mirror_timetable_witness :
  ∃ trace st,
    generate_trace ascii_lower small_request sample_rng = Some (trace, st)
    ∧ grid_get (schedule_of KTeacher st) "Ann" "Mon" "9:00"
      = Some (bool_decide (Exists (λ e, entity KTeacher e = "Ann" ∧ e_day e = "Mon"
                                        ∧ e_time_slot e = "9:00") (timetable st))).
Proof.
  destruct (schedules_mirror_timetable ascii_lower small_request sample_rng)
    as (trace & st & Htr & Hcell).
  exists trace, st. split; [exact Htr|].
  apply (Hcell KTeacher "Ann" "Mon" "9:00"); simpl; by left.
Defined.

(** At the end of a run the load counter of a cohort and a day counts
    the entries of that cohort on that day, so the score [_rank_slots]
    gives a (day, slot) is ten times that count, whatever the slot. *)
Theorem load_counts_entries lower req g :
  ∃ trace st,
    generate_trace lower req g = Some (trace, st)
    ∧ ∀ cohort day slot,
        let count := Z.of_nat (length (filter (λ e, cohort_of e = cohort ∧ e_day e = day)
                                              (timetable st))) in
        load_get (cohort_load st) cohort day = count
        ∧ _rank_slots (cohort_load st) day slot cohort = 10 * count.
Proof.
  destruct (generate_audit lower req g)
    as (trace & st & Htr & _ & _ & (_ & _ & Hload & _) & _).
  exists trace, st. split; [done|]. intros c d s. simpl.
  unfold _rank_slots. rewrite Hload. lia.
Qed.

(** No unplaced-sessions record of a run carries a suggestion: the
    placement loop gives up on a subject only after an attempt found no
    teacher, classroom and (day, slot) that [can_place] accepts, and
    [suggest_alternatives] then scans the same schedules. *)
Theorem generate_never_suggests lower req g :
  ∃ tt cs,
    generate lower req g = Some (tt, cs)
    ∧ ∀ semester subs missing suggestions,
        Unplaced semester subs missing suggestions ∈ cs → suggestions = [].
Proof.
  destruct (generate_audit lower req g)
    as (trace & st & _ & Hgen & _ & (_ & _ & _ & Hq) & _).
  exists (timetable st), (conflicts st). split; [done|].
  intros sem subs m sugg Hin. by apply (proj1 (Forall_forall _ _) Hq _ Hin).
Qed.

Lemma generate_never_suggests_witness :
  ∃ tt cs,
    generate ascii_lower small_request sample_rng = Some (tt, cs)
    ∧ cs = [Unplaced "A" ["math"] 1 []].
Proof.
  destruct (generate_never_suggests ascii_lower small_request sample_rng)
    as (tt & cs & Hgen & _).
  exists tt, cs. split; [exact Hgen|].
  vm_compute in Hgen. by injection Hgen as _ <-.
Defined.

(** The returned timetable is maximal for every subject that stays
    short of its sessions: whatever teacher of the subject, available
    day and slot and classroom of the request one picks, some entry of
    the timetable already occupies that teacher, that classroom or the
    subject's cohort at that day and slot. *)
Theorem unplaced_subject_blocked lower req g :
  ∃ trace st,
    generate_trace lower req g = Some (trace, st)
    ∧ generate lower req g = Some (timetable st, conflicts st)
    ∧ Forall2 (λ subject r,
        r.1 < sessions_of subject →
        ∀ d s t c,
          d ∈ days req → s ∈ time_slots req →
          t ∈ teachers req → teaches lower subject t →
          is_teacher_available t d s → c ∈ classrooms req →
          ∃ e, e ∈ timetable st ∧ e_day e = d ∧ e_time_slot e = s
               ∧ (e_teacher e = t_name t ∨ e_classroom e = c
                  ∨ cohort_of e = semester_of subject))
        (subjects req) trace.
Proof.
  destruct (generate_audit lower req g)
    as (trace & st & Htr & Hgen & _ & (_ & Hex & _) & Hall).
  exists trace, st. split; [done|]. split; [done|].
  eapply Forall2_impl; [exact Hall|].
  intros subject r (Hb & _) Hlt d s t c Hd Hs Ht Hteach Hav Hc.
  destruct (Hb Hlt d s t c) as [Hx|[Hx|Hx]]; try done.
  - destruct (Hex KTeacher _ _ _ Hx) as (e & He & Hk & ? & ?). exists e. tauto.
  - destruct (Hex KClassroom _ _ _ Hx) as (e & He & Hk & ? & ?). exists e. tauto.
  - destruct (Hex KCohort _ _ _ Hx) as (e & He & Hk & ? & ?). exists e. tauto.
Qed.

Lemma unplaced_subject_blocked_witness :
  ∃ trace st,
    generate_trace ascii_lower small_request sample_rng = Some (trace, st)
    ∧ ∃ e, e ∈ timetable st ∧ e_day e = "Tue" ∧ e_time_slot e = "9:00"
           ∧ (e_teacher e = "Ann" ∨ e_classroom e = "R1" ∨ cohort_of e = "A").
Proof.
  destruct (unplaced_subject_blocked ascii_lower small_request sample_rng)
    as (trace & st & Htr & _ & Hall).
  exists trace, st. split; [exact Htr|].
  assert (trace = [(2, 3)]) as ->.
  { pose proof Htr as Htr'. vm_compute in Htr'. by injection Htr' as <- _. }
  apply Forall2_cons_1 in Hall as [Hmath _].
  apply (Hmath ltac:(reflexivity) "Tue" "9:00" ann "R1");
    first [reflexivity | by left | by (right; left)].
Defined.

(** The attempt counter of a subject ends at its [placed] or one above,
    and never above the required sessions: the bound [n × 300] of the
    loop guard is never what ends the loop. *)
Theorem attempts_at_most_sessions lower req g :
  ∃ trace st,
    generate_trace lower req g = Some (trace, st)
    ∧ Forall2 (λ subject r,
        r.2 ≤ Z.max 0 (sessions_of subject)
        ∧ (r.2 = r.1 ∨ (r.2 = r.1 + 1 ∧ r.1 < sessions_of subject)))
        (subjects req) trace.
Proof.
  destruct (generate_audit lower req g) as (trace & st & Htr & _ & _ & _ & Hall).
  exists trace, st. split; [done|].
  eapply Forall2_impl; [exact Hall|]. by intros subject r (_ & ? & ?).
Qed.

(** ** The order in which an attempt tries the (day, slot) pairs *)

Lemma insert_by_score_sorted c l :
  StronglySorted (λ a b : Z * string * string, a.1.1 ≤ b.1.1) l →
  StronglySorted (λ a b : Z * string * string, a.1.1 ≤ b.1.1) (insert_by_score c l).
Proof.
  induction 1 as [|c' l Hl IH Hall]; simpl; [by repeat constructor|].
  case_decide as Hle.
  - constructor; [by constructor|]. constructor; [done|].
    eapply Forall_impl; [exact Hall|]. simpl. intros y ?. lia.
  - constructor; [done|].
    rewrite insert_by_score_Permutation. constructor; [simpl; lia|done].
Qed.

Lemma sort_by_score_sorted l :
  StronglySorted (λ a b : Z * string * string, a.1.1 ≤ b.1.1) (sort_by_score l).
Proof.
  induction l as [|c l IH]; simpl; [constructor|by apply insert_by_score_sorted].
Qed.

Lemma insert_by_score_filter v c l :
  filter (λ x : Z * string * string, x.1.1 = v) (insert_by_score c l)
  = filter (λ x, x.1.1 = v) (c :: l).
Proof.
  induction l as [|c' l IH]; simpl; [done|].
  case_decide as Hle; [done|].
  destruct (decide (c'.1.1 = v)) as [Hv|Hv].
  - rewrite (filter_cons_True _ c') by done. rewrite IH.
    rewrite (filter_cons_False _ c) by lia.
    by rewrite (filter_cons_False _ c), (filter_cons_True _ c') by (done || lia).
  - rewrite (filter_cons_False _ c') by done. rewrite IH.
    destruct (decide (c.1.1 = v)).
    + by rewrite !(filter_cons_True _ c), (filter_cons_False _ c') by done.
    + by rewrite !(filter_cons_False _ c), (filter_cons_False _ c') by done.
Qed.

(** The sort keeps the candidates of equal score in their order. *)
Lemma sort_by_score_filter v l :
  filter (λ x : Z * string * string, x.1.1 = v) (sort_by_score l)
  = filter (λ x, x.1.1 = v) l.
Proof.
  induction l as [|c l IH]; simpl; [done|].
  rewrite insert_by_score_filter.
  destruct (decide (c.1.1 = v)).
  - by rewrite !filter_cons_True, IH by done.
  - by rewrite !filter_cons_False, IH by done.
Qed.

Lemma filter_fmap_iff {A B} (f : A → B) (P : B → Prop) (Q : A → Prop)
    `{∀ y, Decision (P y)} `{∀ x, Decision (Q x)} (l : list A) :
  (∀ x, P (f x) ↔ Q x) → filter P (f <$> l) = f <$> filter Q l.
Proof.
  intros HPQ. induction l as [|a l IH]; [done|]. csimpl.
  destruct (decide (Q a)) as [Ha|Ha].
  - rewrite !filter_cons_True by (done || by apply HPQ). csimpl. by rewrite IH.
  - rewrite !filter_cons_False by (done || by rewrite HPQ). done.
Qed.

Section AttemptOrder.
Variable lower : string → string.
Variable req : Request.

(** A committing search commits at the first candidate of its list at
    which anything fits. *)
Lemma try_candidates_first subject cands st st' :
  wf_state req st →
  (∀ c, c ∈ cands → (c.1.2, c.2) ∈ day_slot_pairs req) →
  try_candidates lower req subject cands st = Some (true, st') →
  ∃ pre cand post st0 t c,
    cands = pre ++ cand :: post
    ∧ (∀ cand' t' c', cand' ∈ pre → t' ∈ teachers req →
                       teaches lower subject t' → c' ∈ classrooms req →
                       ¬ feasible st subject t' c' cand'.1.2 cand'.2)
    ∧ same_schedule st st0
    ∧ t ∈ teachers req ∧ teaches lower subject t ∧ c ∈ classrooms req
    ∧ feasible st subject t c cand.1.2 cand.2
    ∧ place_entry subject t c cand.1.2 cand.2 st0 = Some ((), st').
Proof.
  revert st. induction cands as [|[[score d] s] cands IH]; intros st Hwf Hcands; simpl.
  - intros [=].
  - destruct (proj1 (day_slot_pairs_elem req d s) (Hcands _ ltac:(by left)))
      as [Hd Hs].
    destruct (shuffleM_ok (filter (λ t, teaches lower subject t) (teachers req)) st)
      as (ts & st1 & Hsh & Hperm & Hs1).
    rewrite (bind_Some _ _ _ _ _ Hsh).
    intros (b1 & st2 & Htry & Hrun)%bind_inv.
    apply try_teachers_inv in Htry;
      [|by apply (same_schedule_wf req st)|done..].
    destruct b1.
    + injection Hrun as <-.
      destruct Htry as (st0 & t & c & Hs0 & Ht & Hav & Hc & Hcp & Hpe).
      rewrite Hperm in Ht. apply list_elem_of_filter in Ht as [Hteach Ht].
      assert (same_schedule st st0) as Hs00 by (by eapply same_schedule_trans).
      exists [], (score, d, s), cands, st0, t, c. simpl.
      split_and!; try done.
      * intros cand' t' c' Hin. by apply elem_of_nil in Hin.
      * apply (same_schedule_feasible st0); [by apply same_schedule_sym|].
        by apply can_place_true.
    + destruct Htry as [Hs2 Hno].
      assert (same_schedule st st2) as Hs02 by (by eapply same_schedule_trans).
      destruct (IH st2 (same_schedule_wf req _ _ Hs02 Hwf)
                  (λ c Hc, Hcands c ltac:(by right)) Hrun)
        as (pre & cand & post & st0 & t & c & -> & Hpre & Hs0 & Ht & Hteach & Hc & Hf & Hpe).
      exists ((score, d, s) :: pre), cand, post, st0, t, c.
      split_and!; try done.
      * intros cand' t' c' [->|Hin]%elem_of_cons Ht' Hteach' Hc' Hf'; simpl in *.
        -- apply (Hno t' c'); [|done|by apply (same_schedule_feasible st)].
           rewrite Hperm. by apply list_elem_of_filter.
        -- apply (Hpre cand' t' c'); try done.
           by apply (same_schedule_feasible st).
      * by eapply same_schedule_trans.
      * by apply (same_schedule_feasible st2); [apply same_schedule_sym|].
Qed.

(** An attempt that commits places the entry at the first (day, slot)
    at which anything fits, in the order of ascending day load of the
    subject's cohort, equal loads in the order days then slots: nothing
    fits at a pair of a lighter day, nor at a pair of an equally loaded
    day that comes before the chosen one. *)
Theorem attempt_commits_first_fit subject st st' :
  wf_state req st → subject ∈ subjects req →
  attempt lower req subject st = Some (true, st') →
  let load := load_get (cohort_load st) (semester_of subject) in
  ∃ d s t c before after,
    timetable st'
    = timetable st ++ [{| e_day := d; e_time_slot := s;
                          e_subject := s_name subject; e_teacher := t_name t;
                          e_classroom := c;
                          e_semester := Some (semester_of subject) |}]
    ∧ t ∈ teachers req ∧ teaches lower subject t ∧ c ∈ classrooms req
    ∧ feasible st subject t c d s
    ∧ filter (λ p, load p.1 = load d) (day_slot_pairs req) = before ++ (d, s) :: after
    ∧ ∀ d' s' t' c',
        (d', s') ∈ day_slot_pairs req →
        load d' < load d ∨ (d', s') ∈ before →
        t' ∈ teachers req → teaches lower subject t' → c' ∈ classrooms req →
        ¬ feasible st subject t' c' d' s'.
Proof.
  intros Hwf Hsub. unfold attempt, candidates. rewrite bind_eq.
  set (rank := λ '(day, slot),
         (_rank_slots (cohort_load st) day slot (semester_of subject), day, slot)).
  intros Hrun. set (load := load_get (cohort_load st) (semester_of subject)).
  apply try_candidates_first in Hrun; [|done|].
  2:{ intros c. rewrite sort_by_score_Permutation.
      intros ([d s] & -> & Hds)%list_elem_of_fmap. done. }
  destruct Hrun
    as (pre & cand & post & st0 & t & c & Hsplit & Hpre & Hs0 & Ht & Hteach & Hc & Hf & Hpe).
  assert (cand ∈ rank <$> day_slot_pairs req) as Hcand.
  { rewrite <- sort_by_score_Permutation, Hsplit. apply elem_of_app. right. by left. }
  apply list_elem_of_fmap in Hcand as ([d s] & -> & Hds). simpl in *.
  apply place_entry_inv in Hpe as (Htt & _).
  destruct Hs0 as (Htt0 & _). rewrite Htt0 in Htt.
  assert (∀ p : string * string, (rank p).1.1 = 10 * load p.1) as Hscore.
  { intros [d' s']. simpl. unfold _rank_slots, load. lia. }
  (* the candidates of the chosen score, in the order of the pairs *)
  pose proof (sort_by_score_filter (10 * load d) (rank <$> day_slot_pairs req)) as Hst.
  rewrite Hsplit, filter_app, filter_cons_True in Hst by apply (Hscore (d, s)).
  assert (filter (λ x : Z * string * string, x.1.1 = 10 * load d)
                 (rank <$> day_slot_pairs req)
          = rank <$> filter (λ p, load p.1 = load d) (day_slot_pairs req)) as Hfm.
  { apply filter_fmap_iff. intros p. rewrite (Hscore p). lia. }
  rewrite Hfm in Hst. symmetry in Hst.
  apply fmap_app_inv in Hst as (before & rest & Hbefore & Hrest & Hfilter).
  destruct rest as [|p after]; [done|]. csimpl in Hrest.
  injection Hrest as Hp Hafter.
  assert (p = (d, s)) as -> by (destruct p; simpl in Hp; by simplify_eq).
  exists d, s, t, c, before, after. split_and!; try done.
  intros d' s' t' c' Hds' Hearlier Ht' Hteach' Hc'.
  apply (Hpre (rank (d', s')) t' c'); try done.
  destruct Hearlier as [Hlt|Hin].
  - assert (rank (d', s') ∈ pre ++ rank (d, s) :: post) as Hin.
    { change (rank (d, s)) with
        (_rank_slots (cohort_load st) d s (semester_of subject), d, s).
      rewrite <- Hsplit, sort_by_score_Permutation. by apply list_elem_of_fmap_2. }
    apply elem_of_app in Hin as [?|Hin]; [done|]. exfalso.
    pose proof (sort_by_score_sorted (rank <$> day_slot_pairs req)) as Hsorted.
    rewrite Hsplit in Hsorted. apply StronglySorted_app_1_r in Hsorted.
    apply elem_of_cons in Hin as [Heq|Hin].
    + pose proof (Hscore (d', s')) as H1. pose proof (Hscore (d, s)) as H2.
      rewrite Heq in H1. simpl in *. lia.
    + apply StronglySorted_inv in Hsorted as [_ Hall].
      pose proof (proj1 (Forall_forall _ _) Hall _ Hin) as Hle.
      pose proof (Hscore (d', s')) as H1. pose proof (Hscore (d, s)) as H2.
      simpl in *. lia.
  - assert (rank (d', s') ∈ rank <$> before) as Hin' by (by apply list_elem_of_fmap_2).
    rewrite <- Hbefore in Hin'. by apply list_elem_of_filter in Hin' as [_ ?].
Qed.
End AttemptOrder.

Lemma attempt_commits_first_fit_witness :
  let st := init_state small_request sample_rng in
  let load := load_get (cohort_load st) (semester_of math) in
  ∃ st' d s t c before after,
    attempt ascii_lower small_request math st = Some (true, st')
    ∧ timetable st'
      = timetable st ++ [{| e_day := d; e_time_slot := s;
                            e_subject := s_name math; e_teacher := t_name t;
                            e_classroom := c;
                            e_semester := Some (semester_of math) |}]
    ∧ t ∈ teachers small_request ∧ teaches ascii_lower math t
    ∧ c ∈ classrooms small_request
    ∧ feasible st math t c d s
    ∧ filter (λ p, load p.1 = load d) (day_slot_pairs small_request)
      = before ++ (d, s) :: after
    ∧ ∀ d' s' t' c',
        (d', s') ∈ day_slot_pairs small_request →
        load d' < load d ∨ (d', s') ∈ before →
        t' ∈ teachers small_request → teaches ascii_lower math t' →
        c' ∈ classrooms small_request →
        ¬ feasible st math t' c' d' s'.
Proof.
  intros st load.
  assert (∃ st', attempt ascii_lower small_request math st = Some (true, st'))
    as [st' Hat] by (eexists; vm_compute; reflexivity).
  destruct (attempt_commits_first_fit ascii_lower small_request math st st'
              (proj1 (init_state_consistent small_request sample_rng))
              ltac:(by left) Hat)
    as (d & s & t & c & before & after & H).
  exists st', d, s, t, c, before, after. split; [exact Hat|exact H].
Defined.

(** * Subject colours *)

Lemma subject_hue_from_range h name :
  0 ≤ h < 360 → 0 ≤ subject_hue_from h name < 360.
Proof.
  unfold subject_hue_from. revert h.
  induction (list_ascii_of_string name) as [|ch l IH]; intros h Hh; simpl; [done|].
  apply IH. apply Z.mod_pos_bound. lia.
Qed.

Lemma list_ascii_of_string_app a b :
  list_ascii_of_string (a ++ b)
  = list_ascii_of_string a ++ list_ascii_of_string b.
Proof. induction a as [|ch a IH]; simpl; [done|by rewrite IH]. Qed.

(** The hue of a subject colour is a number from 0 to 359, the colour
    is that hue with fixed saturation and lightness, and the hue of a
    name continues the fold from the hue of any of its prefixes: names
    with a common suffix and prefixes of equal hue get the same colour. *)
Theorem subject_color_hue name :
  0 ≤ subject_hue_from 0 name < 360
  ∧ _subject_color name
    = ("hsl(" ++ pretty (subject_hue_from 0 name) ++ ",65%,85%)")%string
  ∧ ∀ prefix suffix,
      name = (prefix ++ suffix)%string →
      subject_hue_from 0 name
      = subject_hue_from (subject_hue_from 0 prefix) suffix.
Proof.
  split; [apply subject_hue_from_range; lia|]. split; [done|].
  intros prefix suffix ->. unfold subject_hue_from.
  by rewrite list_ascii_of_string_app, foldl_app.
Qed.

Example subject_color_sample : _subject_color "Math" = "hsl(64,65%,85%)".
Proof. reflexivity. Qed.

(** * The session routes *)

Section RouteFacts.
Context {Json Metadata : Type}.
Variable is_none : Json → bool.

Local Abbreviation Server := (Server Json Metadata).

Lemma not_none_lookup (data : gmap string Json) k :
  not_none is_none data !! k
  = match data !! k with
    | Some v => if is_none v then None else Some v
    | None => None
    end.
Proof.
  unfold not_none. rewrite map_lookup_filter.
  destruct (data !! k) as [v|]; simpl; [|done].
  destruct (is_none v) eqn:Hv.
  - rewrite option_guard_False; [done|]. simpl. congruence.
  - rewrite option_guard_True; [done|]. simpl. congruence.
Qed.

Lemma remember_lookup data now (m : gmap string Json) k :
  remember is_none data now m !! k
  = if decide (k = "last_updated") then Some now
    else match data !! k with
         | Some v => if is_none v then m !! k else Some v
         | None => m !! k
         end.
Proof.
  unfold remember. case_decide as Hk; [subst; by rewrite lookup_insert_eq|].
  rewrite lookup_insert_ne by done.
  rewrite lookup_union, not_none_lookup.
  destruct (data !! k) as [v|]; [destruct (is_none v)|];
    by destruct (m !! k).
Qed.

(** What [update_memory] stores is what [get_memory] then returns: the
    old memory of the session (empty for a new session) overwritten by
    the fields of the body that are not [None], with ['last_updated']
    set to the current time even when the body gives one.  A field sent
    as [None] keeps its old value.  Other sessions and the stored
    timetables are untouched, and [clear_memory] then forgets the
    session. *)
Theorem update_memory_then_get session_id data now (srv : Server) :
  let old := default ∅ (session_memory srv !! session_id) in
  let fields := default ∅ data in
  ∃ m srv',
    update_memory is_none session_id data now srv = (Memory_ok m, srv')
    ∧ get_memory session_id srv' = Memory_ok m
    ∧ m !! "last_updated" = Some now
    ∧ (∀ k, k ≠ "last_updated" →
            m !! k = match fields !! k with
                     | Some v => if is_none v then old !! k else Some v
                     | None => old !! k
                     end)
    ∧ (∀ other, other ≠ session_id →
                get_memory other srv' = get_memory other srv)
    ∧ timetables srv' = timetables srv
    ∧ ∃ srv'', clear_memory session_id srv' = (Cleared_ok, srv'')
               ∧ get_memory session_id srv'' = Not_found.
Proof.
  intros old fields. eexists _, _. split; [reflexivity|].
  unfold get_memory. simpl. rewrite lookup_insert_eq.
  split; [done|]. split; [by rewrite remember_lookup, decide_True|].
  split; [intros k Hk; by rewrite remember_lookup, decide_False|].
  split; [intros other Ho; by rewrite lookup_insert_ne|]. split; [done|].
  unfold clear_memory. simpl. rewrite lookup_insert_eq.
  eexists. split; [reflexivity|]. simpl. by rewrite lookup_delete_eq.
Qed.

(** An update that names a stored session and carries a timetable
    replaces the stored conflicts by the report of the detector on that
    timetable: they are what the route answers and what
    [get_conflicts] returns from then on, and no unplaced-sessions
    record of the generation is among them.  The metadata of the
    session, the other sessions and the memories of the other sessions
    stay as they were. *)
Theorem update_timetable_redetects data now (srv : Server) sid stored entries :
  u_session_id data = Some sid →
  timetables srv !! sid = Some stored →
  u_timetable data = Some entries →
  ∃ srv',
    update_timetable is_none data now srv
      = (Updated_ok (detect entries) (session_memory srv' !! sid), srv')
    ∧ timetables srv' !! sid
      = Some {| sr_timetable := Some entries; sr_conflicts := detect entries;
                sr_metadata := sr_metadata stored |}
    ∧ get_conflicts sid srv' = Conflicts_ok (detect entries)
    ∧ (∀ semester subs missing suggestions,
         Unplaced semester subs missing suggestions ∉ detect entries)
    ∧ (∀ other, other ≠ sid →
         timetables srv' !! other = timetables srv !! other
         ∧ session_memory srv' !! other = session_memory srv !! other).
Proof.
  intros Hsid Hst Htt. exists (update_timetable is_none data now srv).2.
  unfold update_timetable. rewrite Hsid. simpl.
  rewrite Hst. simpl. rewrite Htt. simpl.
  split; [reflexivity|]. unfold get_conflicts. simpl.
  rewrite lookup_insert_eq. split; [done|]. split; [done|]. split.
  - intros sem subs m sugg Hin.
    by destruct (proj1 (Forall_forall _ _) (detect_keyed entries) _ Hin).
  - intros other Ho. rewrite lookup_insert_ne by done. split; [done|].
    destruct (session_memory srv !! sid), (u_memory_updates data);
      by rewrite ?lookup_insert_ne.
Qed.

(** An update that names a stored session but carries no timetable
    fails with status 500 after it has overwritten the stored timetable
    with [None]; the stored conflicts, the metadata and the memories
    stay as they were. *)
Theorem update_timetable_without_timetable data now (srv : Server) sid stored :
  u_session_id data = Some sid →
  timetables srv !! sid = Some stored →
  u_timetable data = None →
  ∃ message srv',
    update_timetable is_none data now srv = (Server_error message, srv')
    ∧ timetables srv' !! sid
      = Some {| sr_timetable := None; sr_conflicts := sr_conflicts stored;
                sr_metadata := sr_metadata stored |}
    ∧ get_conflicts sid srv' = get_conflicts sid srv
    ∧ session_memory srv' = session_memory srv
    ∧ (∀ other, other ≠ sid → timetables srv' !! other = timetables srv !! other).
Proof.
  intros Hsid Hst Htt. unfold update_timetable. rewrite Hsid. simpl.
  rewrite Hst. simpl. rewrite Htt.
  eexists _, _. split; [reflexivity|]. unfold get_conflicts. simpl.
  rewrite lookup_insert_eq, Hst. split; [done|]. split; [done|]. split; [done|].
  intros other Ho. by rewrite lookup_insert_ne.
Qed.

End RouteFacts.

Lemma update_timetable_redetects_witness :
  ∃ srv',
    update_timetable sample_is_none
      (sample_update (Some [clash_math; clash_physics])) (Some "now") sample_server
      = (Updated_ok (detect [clash_math; clash_physics])
                    (session_memory srv' !! "s1"), srv')
    ∧ timetables srv' !! "s1"
      = Some {| sr_timetable := Some [clash_math; clash_physics];
                sr_conflicts := detect [clash_math; clash_physics];
                sr_metadata := sr_metadata sample_stored |}
    ∧ get_conflicts "s1" srv' = Conflicts_ok (detect [clash_math; clash_physics])
    ∧ (∀ semester subs missing suggestions,
         Unplaced semester subs missing suggestions
         ∉ detect [clash_math; clash_physics])
    ∧ (∀ other, other ≠ "s1" →
         timetables srv' !! other = timetables sample_server !! other
         ∧ session_memory srv' !! other = session_memory sample_server !! other).
Proof.
  apply (update_timetable_redetects sample_is_none
           (sample_update (Some [clash_math; clash_physics])) (Some "now")
           sample_server "s1" sample_stored); reflexivity.
Defined.

Lemma update_timetable_without_timetable_witness :
  ∃ message srv',
    update_timetable sample_is_none (sample_update None) (Some "now") sample_server
      = (Server_error message, srv')
    ∧ timetables srv' !! "s1"
      = Some {| sr_timetable := None; sr_conflicts := sr_conflicts sample_stored;
                sr_metadata := sr_metadata sample_stored |}
    ∧ get_conflicts "s1" srv' = get_conflicts "s1" sample_server
    ∧ session_memory srv' = session_memory sample_server
    ∧ (∀ other, other ≠ "s1" →
         timetables srv' !! other = timetables sample_server !! other).
Proof.
  apply (update_timetable_without_timetable sample_is_none (sample_update None)
           (Some "now") sample_server "s1" sample_stored); reflexivity.
Defined.

(** Sending back the timetable a run returned makes the update route
    store an empty conflict list: the detector finds nothing in a
    generated timetable, and the unplaced-sessions records the run
    reported are not kept. *)
Theorem update_with_generated_timetable lower req g :
  ∃ tt cs,
    generate lower req g = Some (tt, cs)
    ∧ ∀ (Json Metadata : Type) (is_none : Json → bool)
        (data : UpdateRequest Json) now (srv : Server Json Metadata) sid stored,
        u_session_id data = Some sid →
        timetables srv !! sid = Some stored →
        u_timetable data = Some tt →
        get_conflicts sid (update_timetable is_none data now srv).2
        = Conflicts_ok [].
Proof.
  destruct (generate_run lower req g) as (outs & st & _ & Hgen & Htt & _ & _ & Hnd).
  eexists _, _. split; [exact Hgen|].
  intros Json Metadata is_none data now srv sid stored Hsid Hst Hdata.
  unfold update_timetable. rewrite Hsid. simpl. rewrite Hst. simpl. rewrite Hdata.
  unfold get_conflicts. simpl. rewrite lookup_insert_eq. simpl.
  f_equal. apply detect_nil_iff. by rewrite <- Htt.
Qed.

Lemma update_with_generated_timetable_witness :
  ∃ tt cs,
    generate ascii_lower small_request sample_rng = Some (tt, cs)
    ∧ cs = [Unplaced "A" ["math"] 1 []]
    ∧ get_conflicts "s1"
        (update_timetable sample_is_none (sample_update (Some tt)) (Some "now")
                          sample_server).2
      = Conflicts_ok [].
Proof.
  destruct (update_with_generated_timetable ascii_lower small_request sample_rng)
    as (tt & cs & Hgen & Hupd).
  exists tt, cs. split; [exact Hgen|]. split.
  - pose proof Hgen as Hgen'. vm_compute in Hgen'. by injection Hgen' as _ <-.
  - apply (Hupd _ _ sample_is_none (sample_update (Some tt)) (Some "now")
             sample_server "s1" sample_stored); reflexivity.
Defined.
